(** * Multi-GPU fan-out / fan-in harness of [test-multi-gpu.py]

    A shallow embedding of [run_model_on_gpu] (the worker that each child
    process runs) and of [test_multi_gpu] (the parent that starts three
    children, joins them, drains the shared queue and prints the results
    sorted by GPU), together with the properties of the harness.

    The vLLM engine ([LLM], [LLM.generate]) is an opaque collaborator: it
    is a parameter of the development, a pair of total functions that
    either return or raise a Python [Exception].

    How the model reads the script:
    - a worker is a sequential program; what it does is recorded as a
      list of events, and a child process performs the events of its
      target one at a time;
    - the processes run in parallel: a run of the harness is a schedule,
      the order in which the parent and the children take their steps,
      and the properties hold for every schedule;
    - every process has its own [os.environ]; a child starts with a copy
      of the parent's ([multiprocessing.Process]);
    - the queue is a first-in first-out list without a bound, and a batch
      is in it as soon as it is put; [print], [results_queue.put] and the
      assignment to [os.environ] do not raise;
    - the script returns nothing: what it presents is the sequence that
      its last loop prints, [sorted(all_results, key=gpu_id)].

    The functions of the single-process scripts [test-vllm.py] and
    [test-vllm-3gpu.py] are embedded in the same way: they print, call
    the engine and return a boolean.  The two scripts that measure time
    ([test-optimized-vllm.py], [test-temporal-comparison.py]) are not
    modelled. *)

From Stdlib Require Import Ascii String QArith DecimalString.
From Stdlib Require DecimalPos DecimalZ.
From stdpp Require Import gmap strings list sorting.

Local Open Scope string_scope.
Local Open Scope list_scope.
Local Open Scope Z_scope.

(** ** Python values *)

(** [str(n)] for a Python [int]. *)
Definition str (n : Z) : string := NilZero.string_of_int (Z.to_int n).

(** [c.isspace()] for a code point below 256: the characters that
    [str.strip()] removes.  Strings are modelled as sequences of such
    code points. *)
Definition isspace (c : ascii) : bool :=
  let n := nat_of_ascii c in
  ((9 <=? n)%nat && (n <=? 13)%nat) || ((28 <=? n)%nat && (n <=? 32)%nat)
  || (n =? 133)%nat || (n =? 160)%nat.

Fixpoint lstrip (s : string) : string :=
  match s with
  | EmptyString => EmptyString
  | String c s' => if isspace c then lstrip s' else s
  end.

Fixpoint rstrip (s : string) : string :=
  match s with
  | EmptyString => EmptyString
  | String c s' =>
      match rstrip s' with
      | EmptyString => if isspace c then EmptyString else String c EmptyString
      | r => String c r
      end
  end.

(** [s.strip()] *)
Definition strip (s : string) : string := rstrip (lstrip s).

(** An instance of a subclass of [Exception]; [exc_msg] is [str(e)]. *)
Record PyException := { exc_type : string; exc_msg : string }.

(** What [l[i]] raises out of range. *)
Definition IndexError : PyException :=
  {| exc_type := "IndexError"; exc_msg := "list index out of range" |}.

(** A call either returns or raises. *)
Inductive outcome (A : Type) : Type :=
| Returned (a : A)
| Raised (e : PyException).
Arguments Returned {A} a.
Arguments Raised {A} e.

(** ** The vLLM interface, as far as the script uses it *)

(** Keyword arguments of [LLM(...)], lines 18-24. *)
Record LLMArgs := {
  model : string;
  tensor_parallel_size : Z;
  trust_remote_code : bool;
  max_model_len : Z;
  gpu_memory_utilization : Q
}.

(** [SamplingParams(...)], lines 26-30. *)
Record SamplingParams := {
  temperature : Q;
  top_p : Q;
  max_tokens : Z
}.

(** One completion of a request: [output.outputs[k]], with its [.text]. *)
Record CompletionOutput := { text : string }.

(** One element of what [llm.generate] returns, with its [.outputs]. *)
Record RequestOutput := { outputs : list CompletionOutput }.

(** The engine.  [LLM_init] sees the environment of the process that
    calls it (this is how [CUDA_VISIBLE_DEVICES] reaches it). *)
Record Engine := {
  LLM : Type;
  LLM_init : gmap string string → LLMArgs → outcome LLM;
  LLM_generate : LLM → list string → SamplingParams → outcome (list RequestOutput)
}.

(** ** Results *)

(** The dictionary built on lines 37-41. *)
Record result := { gpu_id : Z; prompt : string; response : string }.

(** ** The worker: [run_model_on_gpu] *)

(** What a worker does that is visible outside its own expression
    evaluation, in program order. *)
Inductive event :=
| SetEnviron (key value : string)     (* os.environ[key] = value *)
| Print (line : string)               (* print(line) *)
| EngineInit (args : LLMArgs)         (* LLM(...) *)
| EngineGenerate (prompts : list string) (sp : SamplingParams)
                                      (* llm.generate(prompts, sp) *)
| QueuePut (batch : list result).     (* results_queue.put(batch) *)

(** The state of a worker process: its own [os.environ] and the events
    it has performed so far. *)
Record wstate := { w_environ : gmap string string; w_events : list event }.

(** Worker computations: state passing, with exceptions. *)
Definition W (A : Type) : Type := wstate → outcome A * wstate.

Definition W_ret {A} (a : A) : W A := λ st, (Returned a, st).

Definition W_bind {A B} (m : W A) (k : A → W B) : W B :=
  λ st, match m st with
        | (Returned a, st') => k a st'
        | (Raised e, st') => (Raised e, st')
        end.

(** [try: body except Exception as e: handler(e)] *)
Definition try_except {A} (body : W A) (handler : PyException → W A) : W A :=
  λ st, match body st with
        | (Returned a, st') => (Returned a, st')
        | (Raised e, st') => handler e st'
        end.

Definition emit (ev : event) : W unit :=
  λ st, (Returned tt, {| w_environ := w_environ st; w_events := w_events st ++ [ev] |}).

Definition environ_set (key value : string) : W unit :=
  λ st, (Returned tt, {| w_environ := <[key := value]> (w_environ st);
                         w_events := w_events st ++ [SetEnviron key value] |}).

Definition print (line : string) : W unit := emit (Print line).

Definition results_queue_put (batch : list result) : W unit := emit (QueuePut batch).

Definition lift {A} (o : outcome A) : W A := λ st, (o, st).

Notation "x <- m ;; k" := (W_bind m (λ x, k))
  (at level 100, m at next level, right associativity).
Notation "m ;;; k" := (W_bind m (λ _, k))
  (at level 100, right associativity).

Section Worker.
Context (vllm : Engine).

Definition new_LLM (args : LLMArgs) : W (LLM vllm) :=
  _ <- emit (EngineInit args) ;;
  λ st, (LLM_init vllm (w_environ st) args, st).

Definition generate (llm : LLM vllm) (prompts : list string) (sp : SamplingParams)
  : W (list RequestOutput) :=
  _ <- emit (EngineGenerate prompts sp) ;;
  lift (LLM_generate vllm llm prompts sp).

(** Lines 35-41: the loop over [enumerate(outputs)].  [prompts[i]] and
    [output.outputs[0]] raise [IndexError] when out of range. *)
Fixpoint collect_results (gpu : Z) (prompts : list string)
    (enumerated : list (nat * RequestOutput)) (results : list result)
  : outcome (list result) :=
  match enumerated with
  | [] => Returned results
  | (i, output) :: rest =>
      match prompts !! i with
      | None => Raised IndexError
      | Some p =>
          match outputs output !! 0%nat with
          | None => Raised IndexError
          | Some completion =>
              collect_results gpu prompts rest
                (results ++ [ {| gpu_id := gpu; prompt := p;
                                 response := strip (text completion) |} ])
          end
      end
  end.

(** [enumerate(l)] *)
Definition enumerate {A} (l : list A) : list (nat * A) := zip (seq 0 (length l)) l.

(** Lines 10-48. *)
Definition run_model_on_gpu (gpu : Z) (model_name : string) (prompts : list string)
  : W unit :=
  environ_set "CUDA_VISIBLE_DEVICES" (str gpu) ;;;
  print ("GPU " +:+ str gpu +:+ ": Loading " +:+ model_name +:+ "...") ;;;
  try_except
    (llm <- new_LLM {| model := model_name;
                       tensor_parallel_size := 1;
                       trust_remote_code := true;
                       max_model_len := 4096;
                       gpu_memory_utilization := (85 # 100)%Q |} ;;
     let sampling_params :=
       {| temperature := (1 # 10)%Q; top_p := (9 # 10)%Q; max_tokens := 200 |} in
     outputs <- generate llm prompts sampling_params ;;
     results <- lift (collect_results gpu prompts (enumerate outputs) []) ;;
     results_queue_put results ;;;
     print ("GPU " +:+ str gpu +:+ ": Completed processing"))
    (λ e,
     print ("GPU " +:+ str gpu +:+ ": Error - " +:+ exc_msg e) ;;;
     results_queue_put []).
End Worker.

(** ** Python's [sorted] *)

(** [sorted(l, key=key)] is a stable sort: elements with equal keys keep
    their relative order.  The model is the stable insertion sort, which
    computes the same list. *)
Fixpoint insert_by {A} (key : A → Z) (x : A) (l : list A) : list A :=
  match l with
  | [] => [x]
  | y :: l' => if key x <=? key y then x :: y :: l' else y :: insert_by key x l'
  end.

Fixpoint sorted {A} (key : A → Z) (l : list A) : list A :=
  match l with
  | [] => []
  | x :: l' => insert_by key x (sorted key l')
  end.

(** ** The harness: [test_multi_gpu] *)

(** Line 54. *)
Definition model_name : string := "Qwen/Qwen2.5-7B-Instruct".

(** Lines 57-70. *)
Definition gpu_prompts : list (list string) :=
  [ [ "Current date context: Today is August 16, 2025. Question: What year is it currently?";
      "Current date context: Today is August 16, 2025. Question: What month and year is it currently?" ];
    [ "Current date context: Today is August 16, 2025. Academic year context: Fall 2024 semester ended in December 2024, Spring 2025 semester ended in May 2025. Question: If I ask about courses from 'last year', which academic year should that refer to?";
      "Current date context: Today is August 16, 2025. Question: If I'm starting Fall 2025 semester soon, what was the previous academic year?" ];
    [ "Current date context: Today is August 16, 2025. I'm a student. Question: If I want to look at my course load from last academic year, what time period should I examine?";
      "Current date context: Today is August 16, 2025. Question: Calculate how many months ago the Spring 2025 semester ended if it ended in May 2025." ] ].

(** A child process ([multiprocessing.Process]).  It has its own copy of
    [os.environ]; [p_done] are the events it has performed, [p_pending]
    the ones it still has to perform, [p_exit] how its target returns. *)
Record process := {
  p_gpu : Z;
  p_environ : gmap string string;
  p_done : list event;
  p_pending : list event;
  p_exit : outcome unit
}.

(** [process.is_alive()] is false. *)
Definition terminated (p : process) : bool :=
  match p_pending p with [] => true | _ => false end.

(** Where the parent is in [test_multi_gpu]. *)
Inductive pc :=
| Spawning (rest : list Z)      (* line 78, GPU ids still to start *)
| Joining (rest : list nat)     (* line 87, positions in [processes] still to join *)
| Draining                      (* line 92 *)
| Finished.                     (* past line 105 *)

(** The parent process, its children and what they share: the queue and
    the terminal. *)
Record system := {
  control : pc;
  environ : gmap string string;          (* the parent's os.environ *)
  processes : list process;
  results_queue : list (list result);    (* oldest first *)
  all_results : list result;
  stdout : list string
}.

Definition newline : string := String "010"%char "".

(** [c * n] for a one-character string. *)
Definition times (c : ascii) (n : nat) : string := string_of_list_ascii (repeat c n).

(** Lines 102-105. *)
Definition display (r : result) : list string :=
  [ newline +:+ "GPU " +:+ str (gpu_id r) +:+ ":";
    "Prompt: " +:+ prompt r;
    "Response: " +:+ response r;
    times "-" 60 ].

(** The sequence that the loop of line 101 iterates over: what the
    harness presents as its result. *)
Definition ResultSet (s : system) : list result := sorted gpu_id (all_results s).

(** Who takes the next step. *)
Inductive actor := Parent | Child (i : nat).

Section Harness.
Context (vllm : Engine).

(** The whole run of the target of a child that starts with
    environment [env]. *)
Definition target (gpu : Z) (prompts : list string) (env : gmap string string)
  : outcome unit * wstate :=
  run_model_on_gpu vllm gpu model_name prompts {| w_environ := env; w_events := [] |}.

(** Lines 79-84: [Process(target=run_model_on_gpu, args=...)] and
    [process.start()].  The child gets a copy of the parent's
    environment. *)
Definition start (gpu : Z) (prompts : list string) (env : gmap string string) : process :=
  {| p_gpu := gpu;
     p_environ := env;
     p_done := [];
     p_pending := w_events (target gpu prompts env).2;
     p_exit := (target gpu prompts env).1 |}.

(** Line 72 and the state on entry of the loop of line 78. *)
Definition test_multi_gpu (env : gmap string string) : system :=
  {| control := Spawning [0; 1; 2];
     environ := env;
     processes := [];
     results_queue := [];
     all_results := [];
     stdout := ["Starting multi-GPU test with 3 parallel vLLM instances..."] |}.

(** One step of the parent, lines 78-105.  [process.join()] can only be
    taken once the child has terminated. *)
Definition parent_step (s : system) : option system :=
  match control s with
  | Spawning (gpu :: rest) =>
      match gpu_prompts !! Z.to_nat gpu with
      | Some prompts =>
          Some {| control := Spawning rest;
                  environ := environ s;
                  processes := processes s ++ [start gpu prompts (environ s)];
                  results_queue := results_queue s;
                  all_results := all_results s;
                  stdout := stdout s |}
      | None => None
      end
  | Spawning [] =>
      Some {| control := Joining (seq 0 (length (processes s)));
              environ := environ s;
              processes := processes s;
              results_queue := results_queue s;
              all_results := all_results s;
              stdout := stdout s |}
  | Joining (i :: rest) =>
      match processes s !! i with
      | Some p =>
          if terminated p
          then Some {| control := Joining rest;
                       environ := environ s;
                       processes := processes s;
                       results_queue := results_queue s;
                       all_results := all_results s;
                       stdout := stdout s |}
          else None
      | None => None
      end
  | Joining [] =>
      Some {| control := Draining;
              environ := environ s;
              processes := processes s;
              results_queue := results_queue s;
              all_results := [];
              stdout := stdout s |}
  | Draining =>
      match results_queue s with
      | gpu_results :: q =>
          Some {| control := Draining;
                  environ := environ s;
                  processes := processes s;
                  results_queue := q;
                  all_results := all_results s ++ gpu_results;
                  stdout := stdout s |}
      | [] =>
          Some {| control := Finished;
                  environ := environ s;
                  processes := processes s;
                  results_queue := [];
                  all_results := all_results s;
                  stdout := stdout s
                            ++ [newline +:+ times "=" 80;
                                "MULTI-GPU TEMPORAL REASONING RESULTS";
                                times "=" 80]
                            ++ flat_map display (sorted gpu_id (all_results s)) |}
      end
  | Finished => None
  end.

(** The effect of one event of a child on its own environment. *)
Definition environ_after (ev : event) (env : gmap string string) : gmap string string :=
  match ev with
  | SetEnviron key value => <[key := value]> env
  | _ => env
  end.

(** One step of child [i]: it performs its next event. *)
Definition child_step (i : nat) (s : system) : option system :=
  match processes s !! i with
  | Some p =>
      match p_pending p with
      | ev :: rest =>
          Some {| control := control s;
                  environ := environ s;
                  processes :=
                    <[i := {| p_gpu := p_gpu p;
                              p_environ := environ_after ev (p_environ p);
                              p_done := p_done p ++ [ev];
                              p_pending := rest;
                              p_exit := p_exit p |}]> (processes s);
                  results_queue :=
                    match ev with
                    | QueuePut batch => results_queue s ++ [batch]
                    | _ => results_queue s
                    end;
                  all_results := all_results s;
                  stdout :=
                    match ev with
                    | Print line => stdout s ++ [line]
                    | _ => stdout s
                    end |}
      | [] => None
      end
  | None => None
  end.

Definition step (a : actor) (s : system) : option system :=
  match a with
  | Parent => parent_step s
  | Child i => child_step i s
  end.

(** A schedule is the order in which the processes take their steps. *)
Fixpoint run (schedule : list actor) (s : system) : option system :=
  match schedule with
  | [] => Some s
  | a :: schedule' =>
      match step a s with
      | Some s' => run schedule' s'
      | None => None
      end
  end.

(** The states the harness can be in when it starts with environment
    [env]. *)
Definition reachable (env : gmap string string) (s : system) : Prop :=
  ∃ schedule, run schedule (test_multi_gpu env) = Some s.
End Harness.

(** Lines 91-94 as one function of the queue contents. *)
Fixpoint collect (queue : list (list result)) (results : list result) : list result :=
  match queue with
  | [] => results
  | gpu_results :: q => collect q (results ++ gpu_results)
  end.

(** ** The single-process scripts: [test-vllm.py] and [test-vllm-3gpu.py] *)

(** The keyword arguments of [LLM(...)] in these scripts: those that the
    worker passes too and the two more of [test_70b_model]; [None] for an
    argument that is not passed. *)
Record LLMKwargs := {
  kw_args : LLMArgs;
  disable_custom_all_reduce : option bool;
  enforce_eager : option bool
}.

(** The engine as these scripts use it. *)
Record ScriptEngine := {
  SLLM : Type;
  SLLM_init : gmap string string → LLMKwargs → outcome SLLM;
  SLLM_generate : SLLM → list string → SamplingParams → outcome (list RequestOutput)
}.

(** [l[i]] *)
Definition index {A} (l : list A) (i : nat) : outcome A :=
  match l !! i with
  | Some x => Returned x
  | None => Raised IndexError
  end.

Section Scripts.
Context (vllm : ScriptEngine).

Definition script_LLM (kw : LLMKwargs) : W (SLLM vllm) :=
  λ st, (SLLM_init vllm (w_environ st) kw, st).

Definition script_generate (llm : SLLM vllm) (prompts : list string) (sp : SamplingParams)
  : W (list RequestOutput) :=
  lift (SLLM_generate vllm llm prompts sp).

(** The loop that prints the answers: [test-vllm.py] lines 43-45,
    [test-vllm-3gpu.py] lines 46-48 and 89-91. *)
Fixpoint print_responses (test_prompts : list string)
    (enumerated : list (nat * RequestOutput)) : W unit :=
  match enumerated with
  | [] => W_ret tt
  | (i, output) :: rest =>
      p <- lift (index test_prompts i) ;;
      print (newline +:+ "Prompt: " +:+ p) ;;;
      completion <- lift (index (outputs output) 0) ;;
      print ("Response: " +:+ strip (text completion)) ;;;
      print_responses test_prompts rest
  end.

(** [test-vllm.py], lines 8-51. *)
Definition test_deepseek : W bool :=
  let model_name := "microsoft/Phi-3.5-mini-instruct" in
  print ("Loading " +:+ model_name +:+ " with vLLM...") ;;;
  print "This may take a while on first run as it downloads the model..." ;;;
  try_except
    (llm <- script_LLM
              {| kw_args := {| model := model_name;
                               tensor_parallel_size := 1;
                               trust_remote_code := true;
                               max_model_len := 4096;
                               gpu_memory_utilization := (8 # 10)%Q |};
                 disable_custom_all_reduce := None;
                 enforce_eager := None |} ;;
     let test_prompts :=
       [ "What year is it currently?";
         "If today is August 16, 2025, what year was 'last year'?";
         "If I'm in the Fall 2024 semester, what academic year is that?" ] in
     let sampling_params :=
       {| temperature := (1 # 10)%Q; top_p := (9 # 10)%Q; max_tokens := 200 |} in
     print (newline +:+ "Testing temporal reasoning:") ;;;
     outputs <- script_generate llm test_prompts sampling_params ;;
     print_responses test_prompts (enumerate outputs) ;;;
     W_ret true)
    (λ e, print ("Error: " +:+ exc_msg e) ;;; W_ret false).

(** [test-vllm-3gpu.py], lines 8-55. *)
Definition test_70b_model : W bool :=
  let model_name := "Qwen/Qwen2.5-72B-Instruct" in
  print ("Loading " +:+ model_name +:+ " with vLLM across all 3 GPUs...") ;;;
  print "This may take a while on first run as it downloads the model..." ;;;
  try_except
    (llm <- script_LLM
              {| kw_args := {| model := model_name;
                               tensor_parallel_size := 3;
                               trust_remote_code := true;
                               max_model_len := 4096;
                               gpu_memory_utilization := (8 # 10)%Q |};
                 disable_custom_all_reduce := Some true;
                 enforce_eager := Some true |} ;;
     let test_prompts :=
       [ "Current date context: Today is August 16, 2025. Question: What year is it currently?";
         "Current date context: Today is August 16, 2025. Academic year context: Fall 2024 semester ended in December 2024, Spring 2025 semester ended in May 2025. Question: If I ask about courses from 'last year', which academic year should that refer to?";
         "Current date context: Today is August 16, 2025. Question: If today is in August 2025, and I'm asking about assignments from 'last academic year', what time period should that cover?" ] in
     let sampling_params :=
       {| temperature := (1 # 10)%Q; top_p := (9 # 10)%Q; max_tokens := 200 |} in
     print (newline +:+ "Testing temporal reasoning with enhanced context:") ;;;
     outputs <- script_generate llm test_prompts sampling_params ;;
     print_responses test_prompts (enumerate outputs) ;;;
     W_ret true)
    (λ e,
     print ("Error: " +:+ exc_msg e) ;;;
     print (newline +:+ "Let's try a smaller model that will definitely work...") ;;;
     W_ret false).

(** [test-vllm-3gpu.py], lines 57-97. *)
Definition test_smaller_model : W bool :=
  let model_name := "Qwen/Qwen2.5-7B-Instruct" in
  print ("Loading fallback model: " +:+ model_name) ;;;
  try_except
    (llm <- script_LLM
              {| kw_args := {| model := model_name;
                               tensor_parallel_size := 1;
                               trust_remote_code := true;
                               max_model_len := 4096;
                               gpu_memory_utilization := (8 # 10)%Q |};
                 disable_custom_all_reduce := None;
                 enforce_eager := None |} ;;
     let test_prompts :=
       [ "Current date context: Today is August 16, 2025. Question: What year is it currently?";
         "Current date context: Today is August 16, 2025. Academic year context: Fall 2024 semester ended in December 2024, Spring 2025 semester ended in May 2025. Question: If I ask about courses from 'last year', which academic year should that refer to?" ] in
     let sampling_params :=
       {| temperature := (1 # 10)%Q; top_p := (9 # 10)%Q; max_tokens := 200 |} in
     print (newline +:+ "Testing temporal reasoning with 8B model:") ;;;
     outputs <- script_generate llm test_prompts sampling_params ;;
     print_responses test_prompts (enumerate outputs) ;;;
     W_ret true)
    (λ e, print ("Error with smaller model: " +:+ exc_msg e) ;;; W_ret false).

(** [test-vllm-3gpu.py], lines 99-108: the body of the script. *)
Definition main_3gpu : W unit :=
  print "Testing large model with temporal reasoning..." ;;;
  success <- test_70b_model ;;
  if negb success
  then
    print (newline +:+ times "=" 50) ;;;
    print "Trying smaller model as fallback..." ;;;
    _ <- test_smaller_model ;;
    W_ret tt
  else W_ret tt.
End Scripts.

(** * The vocabulary of the properties *)

(** ** Events, entries and batches *)

(** The batches an event list puts on the queue, in order. *)
Definition puts (evs : list event) : list (list result) :=
  omap (λ ev, match ev with QueuePut batch => Some batch | _ => None end) evs.

Definition is_SetEnviron (ev : event) : bool :=
  match ev with SetEnviron _ _ => true | _ => false end.

(** An engine-bound operation: constructing the engine or generating. *)
Definition is_engine_op (ev : event) : bool :=
  match ev with EngineInit _ | EngineGenerate _ _ => true | _ => false end.

(** [texts] are the texts of the first completions of [outs]. *)
Definition first_texts (outs : list RequestOutput) (texts : list string) : Prop :=
  Forall2 (λ output t, text <$> (outputs output !! 0%nat) = Some t) outs texts.

(** The entry for a prompt and the text generated for it, lines 37-41. *)
Definition entry (gpu : Z) (p t : string) : result :=
  {| gpu_id := gpu; prompt := p; response := strip t |}.

(** The batches that the children have written so far, child by child. *)
Definition written (s : system) : list (list result) :=
  concat ((λ p, puts (p_done p)) <$> processes s).


(** ** What a worker computes *)

Section WorkerSpec.
Context (vllm : Engine).

(** The opaque computation of the worker bound to [gpu], lines 18-32:
    engine construction and generation, in the environment of a child
    that was started with environment [env]. *)
Definition inference (env : gmap string string) (gpu : Z) (name : string)
    (prompts : list string) : outcome (list RequestOutput) :=
  match LLM_init vllm (<["CUDA_VISIBLE_DEVICES" := str gpu]> env)
          {| model := name; tensor_parallel_size := 1; trust_remote_code := true;
             max_model_len := 4096; gpu_memory_utilization := (85 # 100)%Q |} with
  | Returned llm =>
      LLM_generate vllm llm prompts
        {| temperature := (1 # 10)%Q; top_p := (9 # 10)%Q; max_tokens := 200 |}
  | Raised e => Raised e
  end.

(** What the body of the [try] computes before it writes to the queue,
    lines 18-41. *)
Definition computation (env : gmap string string) (gpu : Z) (name : string)
    (prompts : list string) : outcome (list result) :=
  match inference env gpu name prompts with
  | Returned outs => collect_results gpu prompts (enumerate outs) []
  | Raised e => Raised e
  end.

(** The batch the worker writes: the results, or the empty list of
    line 48. *)
Definition batch_of (env : gmap string string) (gpu : Z) (name : string)
    (prompts : list string) : list result :=
  match computation env gpu name prompts with
  | Returned results => results
  | Raised _ => []
  end.

End WorkerSpec.

(** ** The invariant of the harness *)

Section HarnessSpec.
Context (vllm : Engine) (env : gmap string string).

(** The batch that the worker at position [i] of [processes] writes. *)
Definition worker_batch (i : nat) : list result :=
  match gpu_prompts !! i with
  | Some prompts => batch_of vllm env (Z.of_nat i) model_name prompts
  | None => []
  end.

(** All the events of the worker at position [i]. *)
Definition worker_events (i : nat) : list event :=
  match gpu_prompts !! i with
  | Some prompts => w_events (target vllm (Z.of_nat i) prompts env).2
  | None => []
  end.

(** The environment of a child after the events [evs]. *)
Definition replay (evs : list event) : gmap string string :=
  foldl (λ e ev, environ_after ev e) env evs.

Record process_ok (i : nat) (p : process) : Prop := {
  ok_gpu : p_gpu p = Z.of_nat i;
  ok_prompts : is_Some (gpu_prompts !! i);
  ok_events : p_done p ++ p_pending p = worker_events i;
  ok_exit : p_exit p = Returned tt;
  ok_environ : p_environ p = replay (p_done p)
}.

(** [arrival] lists the positions of the workers that have written to
    the queue, in the order of their writes. *)
Definition arrival_ok (s : system) (arrival : list nat) : Prop :=
  NoDup arrival
  ∧ ∀ i, i ∈ arrival ↔ ∃ p, processes s !! i = Some p ∧ puts (p_done p) ≠ [].

Definition control_ok (s : system) : Prop :=
  match control s with
  | Spawning rest =>
      (length (processes s) ≤ 3)%nat
      ∧ rest = Z.of_nat <$> seq (length (processes s)) (3 - length (processes s))
  | Joining rest =>
      length (processes s) = 3%nat
      ∧ ∃ k, (k ≤ 3)%nat ∧ rest = seq k (3 - k)
             ∧ ∀ i p, (i < k)%nat → processes s !! i = Some p → terminated p = true
  | Draining | Finished =>
      length (processes s) = 3%nat
      ∧ Forall (λ p, terminated p = true) (processes s)
  end.

Definition queue_ok (s : system) (arrival : list nat) : Prop :=
  ∃ k, all_results s = concat (worker_batch <$> take k arrival)
       ∧ results_queue s = worker_batch <$> drop k arrival
       ∧ match control s with
         | Spawning _ | Joining _ => k = 0%nat
         | Draining => True
         | Finished => results_queue s = []
         end.

Record invariant (s : system) : Prop := {
  inv_environ : environ s = env;
  inv_processes : ∀ i p, processes s !! i = Some p → process_ok i p;
  inv_control : control_ok s;
  inv_queue : ∃ arrival, arrival_ok s arrival ∧ queue_ok s arrival
}.

End HarnessSpec.

(** ** Termination *)

Section Measure.
Context (vllm : Engine).



End Measure.


(** ** Scenarios *)

(** The engine of the test scenarios: it answers every prompt with
    ["echo:" + prompt]. *)
Definition echo_engine : Engine :=
  {| LLM := unit;
     LLM_init := λ _ _, Returned tt;
     LLM_generate := λ _ prompts _,
       Returned ((λ p, {| outputs := [ {| text := "echo:" +:+ p |} ] |}) <$> prompts) |}.

(** An engine that cannot be constructed on GPU [gpu], and echoes on the
    others. *)
Definition faulty_engine (gpu : Z) : Engine :=
  {| LLM := unit;
     LLM_init := λ env _,
       if decide (env !! "CUDA_VISIBLE_DEVICES" = Some (str gpu))
       then Raised {| exc_type := "RuntimeError"; exc_msg := "CUDA out of memory" |}
       else Returned tt;
     LLM_generate := λ _ prompts _,
       Returned ((λ p, {| outputs := [ {| text := "echo:" +:+ p |} ] |}) <$> prompts) |}.

(** An engine whose texts start with a blank and end with a newline, as
    generated text often does. *)
Definition padded_engine : Engine :=
  {| LLM := unit;
     LLM_init := λ _ _, Returned tt;
     LLM_generate := λ _ prompts _,
       Returned ((λ p, {| outputs := [ {| text := " echo:" +:+ p +:+ newline |} ] |})
                 <$> prompts) |}.

(** The parent starts the three children and reaches the first [join]. *)
Definition spawn_all : list actor := replicate 4 Parent.

(** Child [i] takes [n] steps. *)
Definition child_steps (i n : nat) : list actor := replicate n (Child i).

(** The children finish in the reverse of the order in which they were
    started; then the parent joins, drains and prints.  Every child takes
    six steps here. *)
Definition reverse_order : list actor :=
  spawn_all ++ child_steps 2 6 ++ child_steps 1 6 ++ child_steps 0 6 ++ replicate 8 Parent.

(** The same, where child 1 fails in [LLM(...)] and so takes five steps. *)
Definition reverse_order_faulty : list actor :=
  spawn_all ++ child_steps 2 6 ++ child_steps 1 5 ++ child_steps 0 6 ++ replicate 8 Parent.


(** All children have terminated, the parent is about to drain. *)
Definition before_drain : list actor :=
  spawn_all ++ child_steps 2 6 ++ child_steps 1 6 ++ child_steps 0 6 ++ replicate 4 Parent.

(** The state that a schedule leads to (the initial state if the
    schedule cannot be run). *)
Definition state_after (vllm : Engine) (schedule : list actor) (env : gmap string string)
  : system :=
  default (test_multi_gpu env) (run vllm schedule (test_multi_gpu env)).

(** The texts that [echo_engine] generates for assignment [i]. *)
Definition echo_texts (i : nat) : list string :=
  (λ p, "echo:" +:+ p) <$> default [] (gpu_prompts !! i).


(** ** Vocabulary of the further properties *)

(** The lines an event list prints, in order. *)
Definition prints (evs : list event) : list string :=
  omap (λ ev, match ev with Print line => Some line | _ => None end) evs.

(** The engine operations of an event list, in order. *)
Definition engine_ops (evs : list event) : list event :=
  filter (λ ev, is_engine_op ev = true) evs.

(** Line 15. *)
Definition loading_line (gpu : Z) (name : string) : string :=
  "GPU " +:+ str gpu +:+ ": Loading " +:+ name +:+ "...".

(** Line 44 or line 47, by how the body of the [try] ended. *)
Definition outcome_line (gpu : Z) (o : outcome (list result)) : string :=
  match o with
  | Returned _ => "GPU " +:+ str gpu +:+ ": Completed processing"
  | Raised e => "GPU " +:+ str gpu +:+ ": Error - " +:+ exc_msg e
  end.

(** Lines 97-105: the banner and the four lines of every result. *)
Definition report (results : list result) : list string :=
  [newline +:+ times "=" 80; "MULTI-GPU TEMPORAL REASONING RESULTS"; times "=" 80]
  ++ flat_map display results.

(** Every character of the string is white space. *)
Fixpoint all_space (s : string) : bool :=
  match s with
  | EmptyString => true
  | String c s' => isspace c && all_space s'
  end.

Definition first_char (s : string) : option ascii :=
  match s with
  | EmptyString => None
  | String c _ => Some c
  end.

Fixpoint last_char (s : string) : option ascii :=
  match s with
  | EmptyString => None
  | String c EmptyString => Some c
  | String _ s' => last_char s'
  end.

(** The engine returned outputs that the loop can print: no more
    outputs than prompts, each with a completion. *)
Definition answers_all (prompts : list string) (o : outcome (list RequestOutput)) : Prop :=
  ∃ outs, o = Returned outs
          ∧ (length outs ≤ length prompts)%nat
          ∧ Forall (λ x, outputs x ≠ []) outs.

(** The engine calls of a script: construction, then generation. *)
Definition script_inference (vllm : ScriptEngine) (env : gmap string string)
    (kw : LLMKwargs) (prompts : list string) (sp : SamplingParams)
  : outcome (list RequestOutput) :=
  match SLLM_init vllm env kw with
  | Returned llm => SLLM_generate vllm llm prompts sp
  | Raised e => Raised e
  end.

(** The two lines that the loop prints for a prompt and its text. *)
Definition response_lines (prompts texts : list string) : list string :=
  concat (zip_with (λ p t, [newline +:+ "Prompt: " +:+ p; "Response: " +:+ strip t])
            prompts texts).

Definition sampling_200 : SamplingParams :=
  {| temperature := (1 # 10)%Q; top_p := (9 # 10)%Q; max_tokens := 200 |}.

(** The keyword arguments and the prompts of [test_70b_model]. *)
Definition kwargs_70b : LLMKwargs :=
  {| kw_args := {| model := "Qwen/Qwen2.5-72B-Instruct"; tensor_parallel_size := 3;
                   trust_remote_code := true; max_model_len := 4096;
                   gpu_memory_utilization := (8 # 10)%Q |};
     disable_custom_all_reduce := Some true;
     enforce_eager := Some true |}.

Definition prompts_70b : list string :=
  [ "Current date context: Today is August 16, 2025. Question: What year is it currently?";
    "Current date context: Today is August 16, 2025. Academic year context: Fall 2024 semester ended in December 2024, Spring 2025 semester ended in May 2025. Question: If I ask about courses from 'last year', which academic year should that refer to?";
    "Current date context: Today is August 16, 2025. Question: If today is in August 2025, and I'm asking about assignments from 'last academic year', what time period should that cover?" ].

(** The keyword arguments and the prompts of [test_smaller_model]. *)
Definition kwargs_smaller : LLMKwargs :=
  {| kw_args := {| model := "Qwen/Qwen2.5-7B-Instruct"; tensor_parallel_size := 1;
                   trust_remote_code := true; max_model_len := 4096;
                   gpu_memory_utilization := (8 # 10)%Q |};
     disable_custom_all_reduce := None;
     enforce_eager := None |}.

Definition prompts_smaller : list string :=
  [ "Current date context: Today is August 16, 2025. Question: What year is it currently?";
    "Current date context: Today is August 16, 2025. Academic year context: Fall 2024 semester ended in December 2024, Spring 2025 semester ended in May 2025. Question: If I ask about courses from 'last year', which academic year should that refer to?" ].

(** The keyword arguments and the prompts of [test_deepseek]. *)
Definition kwargs_deepseek : LLMKwargs :=
  {| kw_args := {| model := "microsoft/Phi-3.5-mini-instruct"; tensor_parallel_size := 1;
                   trust_remote_code := true; max_model_len := 4096;
                   gpu_memory_utilization := (8 # 10)%Q |};
     disable_custom_all_reduce := None;
     enforce_eager := None |}.

Definition prompts_deepseek : list string :=
  [ "What year is it currently?";
    "If today is August 16, 2025, what year was 'last year'?";
    "If I'm in the Fall 2024 semester, what academic year is that?" ].

(** The lines that a worker prints. *)
Definition worker_lines (vllm : Engine) (env : gmap string string) (i : nat) : list string :=
  match gpu_prompts !! i with
  | Some prompts =>
      [loading_line (Z.of_nat i) model_name;
       outcome_line (Z.of_nat i) (computation vllm env (Z.of_nat i) model_name prompts)]
  | None => []
  end.

(** The terminal holds the first line of the parent, then the lines the
    children have printed so far, each child's in its own order, and,
    once the parent has finished, the report. *)
Definition stdout_ok (s : system) : Prop :=
  ∃ lines,
    stdout s
    = "Starting multi-GPU test with 3 parallel vLLM instances..."
      :: lines ++ match control s with
                  | Finished => report (ResultSet s)
                  | _ => []
                  end
    ∧ lines ≡ₚ concat ((λ p, prints (p_done p)) <$> processes s)
    ∧ ∀ i p, processes s !! i = Some p → prints (p_done p) `sublist_of` lines.

(** ** Further scenarios *)

(** An engine that answers the first prompt only. *)
Definition terse_engine : Engine :=
  {| LLM := unit;
     LLM_init := λ _ _, Returned tt;
     LLM_generate := λ _ prompts _,
       Returned ((λ p, {| outputs := [ {| text := "echo:" +:+ p |} ] |}) <$> take 1 prompts) |}.

(** An engine whose second output has no completion. *)
Definition hollow_engine : Engine :=
  {| LLM := unit;
     LLM_init := λ _ _, Returned tt;
     LLM_generate := λ _ _ _,
       Returned [ {| outputs := [ {| text := "one" |} ] |}; {| outputs := [] |} ] |}.

(** An engine that returns no output on GPU [gpu], and echoes on the
    others. *)
Definition mute_engine (gpu : Z) : Engine :=
  {| LLM := bool;
     LLM_init := λ env _,
       Returned (bool_decide (env !! "CUDA_VISIBLE_DEVICES" = Some (str gpu)));
     LLM_generate := λ mute prompts _,
       if mute then Returned []
       else Returned ((λ p, {| outputs := [ {| text := "echo:" +:+ p |} ] |}) <$> prompts) |}.

(** The children finish in the order in which they were started. *)
Definition dispatch_order : list actor :=
  spawn_all ++ child_steps 0 6 ++ child_steps 1 6 ++ child_steps 2 6 ++ replicate 8 Parent.

(** * Properties *)

(** ** The stable sort *)

Section SortedFacts.
Context {A : Type} (key : A → Z).

Let le_key (x y : A) : Prop := key x ≤ key y.

Lemma insert_by_perm x l : insert_by key x l ≡ₚ x :: l.
Proof.
  induction l as [|y l IH]; simpl; [done|].
  destruct (key x <=? key y); [done|].
  rewrite IH. apply perm_swap.
Qed.

Lemma sorted_perm l : sorted key l ≡ₚ l.
Proof.
  induction l as [|x l IH]; simpl; [done|].
  by rewrite insert_by_perm, IH.
Qed.

Lemma insert_by_sorted x l :
  StronglySorted le_key l → StronglySorted le_key (insert_by key x l).
Proof.
  induction 1 as [|y l Hl IH Hy]; simpl.
  - repeat constructor.
  - destruct (Z.leb_spec (key x) (key y)) as [Hxy|Hxy].
    + constructor; [by constructor|].
      constructor; [done|].
      eapply Forall_impl; [exact Hy|]. unfold le_key. intros z Hz. lia.
    + constructor; [done|].
      rewrite insert_by_perm. constructor; [unfold le_key; lia | done].
Qed.

Lemma sorted_sorted l : StronglySorted le_key (sorted key l).
Proof.
  induction l as [|x l IH]; simpl; [constructor|].
  by apply insert_by_sorted.
Qed.

(** Stability: the elements with a given key come out in the order in
    which they went in. *)
Lemma insert_by_filter v x l :
  filter (λ y, key y = v) (insert_by key x l) = filter (λ y, key y = v) (x :: l).
Proof.
  induction l as [|y l IH]; simpl; [done|].
  destruct (Z.leb_spec (key x) (key y)) as [Hxy|Hxy]; [done|].
  rewrite filter_cons, IH, !filter_cons.
  destruct (decide (key y = v)), (decide (key x = v)); try done. lia.
Qed.

Lemma sorted_filter v l :
  filter (λ y, key y = v) (sorted key l) = filter (λ y, key y = v) l.
Proof.
  induction l as [|x l IH]; simpl; [done|].
  by rewrite insert_by_filter, !filter_cons, IH.
Qed.

(** A list sorted by key is determined by its groups. *)
Lemma sorted_groups_eq l1 l2 :
  StronglySorted le_key l1 → StronglySorted le_key l2 →
  (∀ v, filter (λ y, key y = v) l1 = filter (λ y, key y = v) l2) →
  l1 = l2.
Proof.
  intros H1. revert l2.
  induction H1 as [|x l1 Hl1 IH Hx]; intros l2 H2 Hgr.
  - destruct l2 as [|y l2]; [done|].
    specialize (Hgr (key y)). rewrite filter_cons in Hgr.
    by destruct (decide (key y = key y)).
  - destruct H2 as [|y l2 Hl2 Hy].
    { specialize (Hgr (key x)). rewrite filter_cons in Hgr.
      by destruct (decide (key x = key x)). }
    assert (key x = key y) as Hk.
    { destruct (Z.lt_trichotomy (key x) (key y)) as [Hlt|[?|Hlt]]; [|done|].
      - pose proof (Hgr (key x)) as Hg. rewrite !filter_cons in Hg.
        destruct (decide (key x = key x)); [|done].
        destruct (decide (key y = key x)); [lia|].
        assert (x ∈ filter (λ z, key z = key x) l2) as Hin
          by (rewrite <- Hg; left).
        apply list_elem_of_filter in Hin as [_ Hin].
        rewrite Forall_forall in Hy. apply Hy in Hin. unfold le_key in Hin. lia.
      - pose proof (Hgr (key y)) as Hg. rewrite !filter_cons in Hg.
        destruct (decide (key y = key y)); [|done].
        destruct (decide (key x = key y)); [lia|].
        assert (y ∈ filter (λ z, key z = key y) l1) as Hin
          by (rewrite Hg; left).
        apply list_elem_of_filter in Hin as [_ Hin].
        rewrite Forall_forall in Hx. apply Hx in Hin. unfold le_key in Hin. lia. }
    pose proof (Hgr (key x)) as Hg. rewrite !filter_cons in Hg.
    destruct (decide (key x = key x)); [|done].
    destruct (decide (key y = key x)); [|congruence].
    injection Hg as -> Hg. f_equal.
    apply IH; [done|]. intros v.
    specialize (Hgr v). rewrite !filter_cons in Hgr.
    destruct (decide (key y = v)); [|done]. by injection Hgr.
Qed.
End SortedFacts.

(** ** The worker *)

Section WorkerFacts.
Context (vllm : Engine).

Ltac worker_cases :=
  unfold run_model_on_gpu, batch_of, computation, inference, try_except, W_bind,
    new_LLM, generate, environ_set, print, results_queue_put, emit, lift, W_bind;
  simpl;
  repeat match goal with
    | |- context [LLM_init ?v ?e ?a] => destruct (LLM_init v e a); simpl
    | |- context [LLM_generate ?v ?l ?p ?sp] => destruct (LLM_generate v l p sp); simpl
    | |- context [collect_results ?g ?p ?en ?acc] =>
        destruct (collect_results g p en acc); simpl
    end.

(** The worker always returns: every exception of the [try] body is
    handled. *)
Lemma run_model_on_gpu_returns gpu name prompts st :
  (run_model_on_gpu vllm gpu name prompts st).1 = Returned tt.
Proof. worker_cases; reflexivity. Qed.

Lemma run_model_on_gpu_environ gpu name prompts st :
  w_environ (run_model_on_gpu vllm gpu name prompts st).2
  = <["CUDA_VISIBLE_DEVICES" := str gpu]> (w_environ st).
Proof. worker_cases; reflexivity. Qed.

(** The first event scopes the environment; no later event touches it. *)
Lemma run_model_on_gpu_scoping gpu name prompts st :
  ∃ rest,
    w_events (run_model_on_gpu vllm gpu name prompts st).2
    = w_events st ++ SetEnviron "CUDA_VISIBLE_DEVICES" (str gpu) :: rest
    ∧ forallb (λ ev, negb (is_SetEnviron ev)) rest = true.
Proof.
  worker_cases; rewrite <- ?(assoc_L (++)); simpl; eexists; (split; [reflexivity|]); reflexivity.
Qed.

(** One write to the queue, whatever happens. *)
Lemma run_model_on_gpu_puts gpu name prompts st :
  puts (w_events (run_model_on_gpu vllm gpu name prompts st).2)
  = puts (w_events st) ++ [batch_of vllm (w_environ st) gpu name prompts].
Proof.
  unfold puts. worker_cases; rewrite ?omap_app; simpl; rewrite <- ?(assoc_L (++)); simpl;
    rewrite ?app_nil_r; reflexivity.
Qed.


(** Every entry of a batch carries the GPU id of the worker. *)
Lemma collect_results_gpu gpu prompts enumerated acc results :
  collect_results gpu prompts enumerated acc = Returned results →
  Forall (λ r, gpu_id r = gpu) acc → Forall (λ r, gpu_id r = gpu) results.
Proof.
  revert acc. induction enumerated as [|[i output] rest IH]; simpl; intros acc Hc Hacc.
  - by injection Hc as <-.
  - destruct (prompts !! i); [|done].
    destruct (outputs output !! 0%nat); [|done].
    apply IH in Hc; [done|].
    apply Forall_app. split; [done|]. by repeat constructor.
Qed.

Lemma batch_of_gpu env gpu name prompts :
  Forall (λ r, gpu_id r = gpu) (batch_of vllm env gpu name prompts).
Proof.
  unfold batch_of, computation.
  destruct (inference vllm env gpu name prompts) as [outs|]; [|constructor].
  destruct (collect_results _ _ _ _) eqn:Hc; [|constructor].
  eapply collect_results_gpu; [exact Hc|constructor].
Qed.
End WorkerFacts.

Lemma collect_results_from gpu prompts outs texts k acc :
  first_texts outs texts →
  (k + length outs ≤ length prompts)%nat →
  collect_results gpu prompts (zip (seq k (length outs)) outs) acc
  = Returned (acc ++ zip_with (entry gpu) (drop k prompts) texts).
Proof.
  intros Hft. revert k acc.
  induction Hft as [|output t outs texts Ht Hft IH]; intros k acc Hlen; simpl in *.
  - destruct (drop k prompts); by rewrite app_nil_r.
  - destruct (lookup_lt_is_Some_2 prompts k) as [p Hp]; [lia|].
    rewrite Hp. destruct (outputs output !! 0%nat) as [c|]; [|done].
    injection Ht as <-.
    rewrite IH by lia. rewrite (drop_S _ _ _ Hp). simpl.
    by rewrite <- (assoc_L (++)).
Qed.

(** One output per prompt, each with a completion: the batch pairs every
    prompt with its stripped text, in order. *)
Lemma collect_results_all gpu prompts outs texts :
  first_texts outs texts →
  length outs = length prompts →
  collect_results gpu prompts (enumerate outs) [] = Returned (zip_with (entry gpu) prompts texts).
Proof.
  intros Hft Hlen. unfold enumerate.
  rewrite (collect_results_from gpu prompts outs texts 0 []); [done|done|lia].
Qed.

(** ** The harness *)

Lemma puts_app evs1 evs2 : puts (evs1 ++ evs2) = puts evs1 ++ puts evs2.
Proof. apply omap_app. Qed.

Section HarnessFacts.
Context (vllm : Engine) (env : gmap string string).

Lemma worker_events_puts i :
  is_Some (gpu_prompts !! i) → puts (worker_events vllm env i) = [worker_batch vllm env i].
Proof.
  intros [prompts Hp]. unfold worker_events, worker_batch, target. rewrite Hp.
  by rewrite run_model_on_gpu_puts.
Qed.

Lemma invariant_start : invariant vllm env (test_multi_gpu env).
Proof.
  split; simpl; [done|done|split; simpl; [lia|reflexivity]|].
  exists []. split.
  - split; [constructor|]. intros i. split; [by intros ?%elem_of_nil|by intros (?&?&?)].
  - by exists 0%nat.
Qed.

Lemma arrival_ok_processes s s' arrival :
  (∀ i, (∃ p, processes s' !! i = Some p ∧ puts (p_done p) ≠ [])
        ↔ (∃ p, processes s !! i = Some p ∧ puts (p_done p) ≠ [])) →
  arrival_ok s arrival → arrival_ok s' arrival.
Proof.
  intros Heq [Hnd Hin]. split; [done|]. intros i. by rewrite Hin, Heq.
Qed.

Lemma invariant_parent_step s s' :
  invariant vllm env s → parent_step vllm s = Some s' → invariant vllm env s'.
Proof.
  intros [Henv Hprocs Hctl (arrival & Harr & k & Hall & Hq & Hk)] Hstep.
  unfold parent_step in Hstep. unfold control_ok in Hctl.
  destruct (control s) as [[|gpu rest]|[|i rest]| |] eqn:Hc.
  - (* line 87: all children started *)
    injection Hstep as <-. destruct Hctl as [Hlen Hrest].
    assert (length (processes s) = 3%nat) as Hlen3.
    { destruct (decide (length (processes s) = 3%nat)) as [|Hne]; [done|].
      replace (3 - length (processes s))%nat
        with (S (2 - length (processes s))) in Hrest by lia.
      done. }
    split; simpl; [done|done| |].
    + unfold control_ok; simpl. split; [done|]. exists 0%nat.
      split; [lia|]. split; [by rewrite Hlen3|]. intros; lia.
    + exists arrival. split; [done|]. by exists k.
  - (* lines 79-84: start the next child *)
    destruct Hctl as [Hlen Hrest].
    set (n := length (processes s)) in *.
    assert (n < 3)%nat as Hn.
    { destruct (decide (n = 3%nat)) as [Heq|]; [|lia]. by rewrite Heq in Hrest. }
    replace (3 - n)%nat with (S (2 - n)) in Hrest by lia.
    simpl in Hrest. injection Hrest as -> ->.
    rewrite Nat2Z.id in Hstep.
    destruct (gpu_prompts !! n) as [prompts|] eqn:Hp; [|done].
    injection Hstep as <-.
    split; simpl; [done| | |].
    + intros i p Hi.
      apply lookup_app_Some in Hi as [Hi|[Hge Hi]]; [by apply Hprocs|].
      fold n in Hge, Hi.
      apply list_lookup_singleton_Some in Hi as [Hi <-].
      assert (i = n) as -> by lia.
      split; simpl.
      * done.
      * by exists prompts.
      * unfold worker_events. by rewrite Hp, Henv.
      * apply run_model_on_gpu_returns.
      * by rewrite Henv.
    + unfold control_ok; simpl. rewrite length_app; simpl. fold n.
      split; [lia|]. by replace (3 - (n + 1))%nat with (2 - n)%nat by lia;
        replace (n + 1)%nat with (S n) by lia.
    + exists arrival. split.
      * eapply arrival_ok_processes; [|exact Harr]. simpl. intros i. split.
        -- intros (p & Hi & Hput).
           apply lookup_app_Some in Hi as [Hi|[Hge Hi]]; [by exists p|].
           apply list_lookup_singleton_Some in Hi as [Hi <-]. by simpl in Hput.
        -- intros (p & Hi & Hput). exists p. split; [|done].
           by apply lookup_app_l_Some.
      * by exists k.
  - (* line 91: all children joined *)
    injection Hstep as <-. destruct Hctl as (Hlen & j & Hj & Hrest & Hterm).
    assert (j = 3%nat) as ->.
    { destruct (decide (j = 3%nat)) as [|Hne]; [done|].
      replace (3 - j)%nat with (S (2 - j)) in Hrest by lia. done. }
    split; simpl; [done|done| |].
    + unfold control_ok; simpl. split; [done|].
      apply Forall_lookup. intros i p Hi. eapply Hterm; [|exact Hi].
      apply lookup_lt_Some in Hi. lia.
    + exists arrival. split; [done|]. exists 0%nat. subst k.
      by rewrite Hq.
  - (* line 88: join child [i] *)
    destruct (processes s !! i) as [p|] eqn:Hi; [|done].
    destruct (terminated p) eqn:Hp; [|done].
    injection Hstep as <-. destruct Hctl as (Hlen & j & Hj & Hrest & Hterm).
    assert (j < 3)%nat as Hj3.
    { destruct (decide (j = 3%nat)) as [Heq|]; [|lia]. by rewrite Heq in Hrest. }
    replace (3 - j)%nat with (S (2 - j)) in Hrest by lia.
    simpl in Hrest. injection Hrest as -> ->.
    split; simpl; [done|done| |].
    + unfold control_ok; simpl. split; [done|]. exists (S j).
      split; [lia|]. split; [by replace (3 - S j)%nat with (2 - j)%nat by lia|].
      intros i' p' Hlt Hi'.
      destruct (decide (i' = j)) as [->|]; [congruence|].
      eapply Hterm; [|exact Hi']. lia.
    + exists arrival. split; [done|]. by exists k.
  - (* lines 92-94, and 96-105 once the queue is empty *)
    destruct (results_queue s) as [|gpu_results q] eqn:Hqueue.
    + injection Hstep as <-. split; simpl; [done|done|done|].
      exists arrival. split; [done|]. by exists k.
    + injection Hstep as <-. split; simpl; [done|done|done|].
      exists arrival. split; [done|]. exists (S k). simpl.
      destruct (drop k arrival) as [|a rest] eqn:Hdrop; [done|].
      simpl in Hq. injection Hq as -> ->.
      assert (arrival !! k = Some a) as Hka.
      { rewrite <- (take_drop k arrival) at 1. rewrite Hdrop.
        rewrite lookup_app_r by (rewrite length_take; lia).
        assert (k ≤ length arrival)%nat.
        { destruct (decide (k ≤ length arrival)%nat); [done|].
          rewrite drop_ge in Hdrop by lia. done. }
        by replace (k - length (take k arrival))%nat with 0%nat
          by (rewrite length_take; lia). }
      split; [|split; [|done]].
      * rewrite (take_S_r _ _ _ Hka), fmap_app, concat_app. simpl.
        by rewrite app_nil_r, Hall.
      * rewrite (drop_S _ _ _ Hka) in Hdrop. by injection Hdrop as <-.
  - done.
Qed.

(** A child can only take a step while the parent has not yet got
    past its [join]. *)
Lemma running_child_control s i p :
  control_ok s → processes s !! i = Some p → terminated p = false →
  match control s with
  | Spawning _ => True
  | Joining rest => i ∈ rest
  | Draining | Finished => False
  end.
Proof.
  unfold control_ok. intros Hctl Hi Hp.
  destruct (control s) as [rest|rest| |]; [done| | |].
  - destruct Hctl as (Hlen & k & Hk & -> & Hterm).
    destruct (decide (i < k)%nat) as [Hlt|Hge].
    + by rewrite (Hterm i p Hlt Hi) in Hp.
    + apply lookup_lt_Some in Hi. apply elem_of_seq. lia.
  - destruct Hctl as [_ Hterm]. rewrite Forall_lookup in Hterm.
    by rewrite (Hterm i p Hi) in Hp.
  - destruct Hctl as [_ Hterm]. rewrite Forall_lookup in Hterm.
    by rewrite (Hterm i p Hi) in Hp.
Qed.

Lemma invariant_child_step i s s' :
  invariant vllm env s → child_step i s = Some s' → invariant vllm env s'.
Proof.
  intros [Henv Hprocs Hctl (arrival & [Hnd Hin] & k & Hall & Hq & Hk)] Hstep.
  unfold child_step in Hstep.
  destruct (processes s !! i) as [p|] eqn:Hi; [|done].
  destruct (p_pending p) as [|ev rest] eqn:Hpend; [done|].
  injection Hstep as <-.
  pose proof (Hprocs i p Hi) as [Hgpu Hprompts Hevs Hexit Henvp].
  assert (terminated p = false) as Hrun by (unfold terminated; by rewrite Hpend).
  pose proof (running_child_control s i p Hctl Hi Hrun) as Hcc.
  pose proof (lookup_lt_Some _ _ _ Hi) as Hlt.
  set (p' := {| p_gpu := p_gpu p; p_environ := environ_after ev (p_environ p);
                p_done := p_done p ++ [ev]; p_pending := rest; p_exit := p_exit p |}).
  assert (∀ j q, <[i := p']> (processes s) !! j = Some q →
                 (j = i ∧ q = p') ∨ (j ≠ i ∧ processes s !! j = Some q)) as Hlook.
  { intros j q Hj. destruct (decide (j = i)) as [->|Hne].
    - rewrite list_lookup_insert_eq in Hj by done. left. split; congruence.
    - rewrite list_lookup_insert_ne in Hj by done. by right. }
  assert (k = 0%nat) as -> by (by destruct (control s)).
  rewrite take_0 in Hall. rewrite drop_0 in Hq. simpl in Hall.
  split; simpl.
  - done.
  - intros j q Hj. apply Hlook in Hj as [[-> ->]|[_ Hj]]; [|by apply Hprocs].
    split; simpl; [done|done| |done|].
    + by rewrite <- (assoc_L (++)), <- Hevs, Hpend.
    + rewrite Henvp. unfold replay. by rewrite foldl_app.
  - unfold control_ok in *; simpl. rewrite length_insert.
    destruct (control s) as [rest0|rest0| |]; [done| |done|done].
    destruct Hctl as (Hlen & j & Hj & -> & Hterm).
    split; [done|]. exists j. split; [done|]. split; [done|].
    intros i' q Hi' Hq'. apply Hlook in Hq' as [[-> ->]|[_ Hq']].
    + apply elem_of_seq in Hcc. lia.
    + by eapply Hterm.
  - assert (puts (p_done p) ++ puts [ev] ++ puts rest = [worker_batch vllm env i]) as Hputs.
    { rewrite <- !puts_app, <- worker_events_puts, <- Hevs, Hpend by done. done. }
    unfold arrival_ok, queue_ok; simpl.
    destruct (puts [ev]) as [|batch [|]] eqn:Hev.
    + (* not a write to the queue *)
      exists arrival. split.
      * split; [done|]. intros j. rewrite Hin. split.
        -- intros (q & Hj & Hput). destruct (decide (j = i)) as [->|Hne].
           ++ exists p'. rewrite list_lookup_insert_eq by done. split; [done|].
              simpl. rewrite puts_app, Hev, app_nil_r. congruence.
           ++ exists q. by rewrite list_lookup_insert_ne.
        -- intros (q & Hj & Hput). apply Hlook in Hj as [[-> ->]|[_ Hj]].
           ++ exists p. split; [done|].
              simpl in Hput. by rewrite puts_app, Hev, app_nil_r in Hput.
           ++ by exists q.
      * exists 0%nat. rewrite take_0, drop_0. simpl.
        split; [done|]. split; [|revert Hcc; by destruct (control s)].
        destruct ev; try done.
    + (* the write to the queue *)
      destruct ev; try done. simpl in Hev. injection Hev as ->.
      destruct (puts (p_done p)) as [|b0 l0] eqn:Hdone;
        [|simpl in Hputs; injection Hputs as _ Hputs; by destruct l0].
      simpl in Hputs. injection Hputs as -> Hrest.
      assert (i ∉ arrival) as Hni.
      { rewrite Hin. intros (q & Hq' & Hput). congruence. }
      exists (arrival ++ [i]). split.
      * split.
        -- apply NoDup_app. split; [done|]. split; [|apply NoDup_singleton].
           intros j Hj ->%list_elem_of_singleton. done.
        -- intros j. rewrite elem_of_app, list_elem_of_singleton, Hin. split.
           ++ intros [(q & Hj & Hput)| ->].
              ** destruct (decide (j = i)) as [->|Hne]; [congruence|].
                 exists q. by rewrite list_lookup_insert_ne.
              ** exists p'. rewrite list_lookup_insert_eq by done. split; [done|].
                 simpl. rewrite puts_app, Hdone. done.
           ++ intros (q & Hj & Hput). apply Hlook in Hj as [[-> ->]|[_ Hj]].
              ** by right.
              ** left. by exists q.
      * exists 0%nat. rewrite take_0, drop_0. simpl.
        split; [done|]. split; [|revert Hcc; by destruct (control s)].
        by rewrite fmap_app, Hq.
    + by destruct ev.
Qed.

Lemma invariant_step a s s' : invariant vllm env s → step vllm a s = Some s' → invariant vllm env s'.
Proof.
  destruct a as [|i]; simpl; [apply invariant_parent_step|apply invariant_child_step].
Qed.

Lemma invariant_run schedule s s' :
  invariant vllm env s → run vllm schedule s = Some s' → invariant vllm env s'.
Proof.
  revert s. induction schedule as [|a schedule IH]; simpl; intros s Hinv Hrun.
  - by injection Hrun as <-.
  - destruct (step vllm a s) as [s1|] eqn:Hstep; [|done].
    eapply IH; [|exact Hrun]. by eapply invariant_step.
Qed.

Lemma reachable_invariant s : reachable vllm env s → invariant vllm env s.
Proof. intros [schedule Hrun]. eapply invariant_run; [apply invariant_start|exact Hrun]. Qed.
End HarnessFacts.

(** ** Assembling the batches *)

Lemma collect_concat queue results : collect queue results = results ++ concat queue.
Proof.
  revert results. induction queue as [|b q IH]; intros results; simpl.
  - by rewrite app_nil_r.
  - by rewrite IH, <- (assoc_L (++)).
Qed.

Lemma elem_of_concat {A} (x : A) (ls : list (list A)) :
  x ∈ concat ls ↔ ∃ l, x ∈ l ∧ l ∈ ls.
Proof.
  induction ls as [|l ls IH]; simpl.
  - split; [by intros ?%elem_of_nil|]. by intros (l & _ & ?%elem_of_nil).
  - rewrite elem_of_app, IH. split.
    + intros [Hx|(l' & Hx & Hl')]; [exists l|exists l']; (split; [done|]);
        [by left|by right].
    + intros (l' & Hx & [->|Hl']%elem_of_cons); [by left|right; by exists l'].
Qed.



Section Assembly.
Context {A : Type} (key : A → Z) (batch : nat → list A).
Hypothesis batch_key : ∀ i, Forall (λ x, key x = Z.of_nat i) (batch i).

Lemma filter_batch v i :
  filter (λ x, key x = v) (batch i) = if decide (v = Z.of_nat i) then batch i else [].
Proof.
  specialize (batch_key i). induction batch_key as [|x l Hx Hl IH]; simpl.
  - by destruct (decide _).
  - rewrite filter_cons, IH. destruct (decide (key x = v)), (decide (v = Z.of_nat i)); congruence.
Qed.

(** The group of a key does not depend on the order in which the
    batches arrived. *)
Lemma filter_concat_perm v arrival arrival' :
  NoDup arrival → arrival ≡ₚ arrival' →
  filter (λ x, key x = v) (concat (batch <$> arrival))
  = filter (λ x, key x = v) (concat (batch <$> arrival')).
Proof.
  intros Hnd Hperm. induction Hperm as [|i l l' Hperm IH|i j l|l l' l'' H1 IH1 H2 IH2].
  - done.
  - simpl. rewrite !filter_app. f_equal. apply IH. by apply NoDup_cons in Hnd as [_ ?].
  - simpl. rewrite !filter_app, !filter_batch.
    apply NoDup_cons in Hnd as [Hj _]. rewrite not_elem_of_cons in Hj.
    destruct (decide (v = Z.of_nat j)), (decide (v = Z.of_nat i)); try done.
    destruct Hj as [Hj _]. lia.
  - rewrite IH1 by done. apply IH2. by rewrite <- H1.
Qed.

Lemma concat_seq_sorted j n :
  StronglySorted (λ x y, key x ≤ key y) (concat (batch <$> seq j n)).
Proof.
  revert j. induction n as [|n IH]; intros j; simpl; [constructor|].
  apply StronglySorted_app_2; [| |apply IH].
  - intros x y Hx Hy.
    pose proof (batch_key j) as Hj. rewrite Forall_forall in Hj. rewrite (Hj x Hx).
    apply elem_of_concat in Hy as (b & Hy & Hb).
    apply list_elem_of_fmap in Hb as (i & -> & Hi). apply elem_of_seq in Hi.
    pose proof (batch_key i) as Hbi. rewrite Forall_forall in Hbi. rewrite (Hbi y Hy). lia.
  - specialize (batch_key j). induction batch_key as [|x l Hx Hl IHl]; constructor; [done|].
    eapply Forall_impl; [exact Hl|]. simpl. intros y ->. lia.
Qed.

(** Whatever the arrival order, sorting puts the batches in the order
    of their keys and keeps each batch in its own order. *)
Lemma sorted_arrival arrival n :
  arrival ≡ₚ seq 0 n →
  sorted key (concat (batch <$> arrival)) = concat (batch <$> seq 0 n).
Proof.
  intros Hperm.
  apply (sorted_groups_eq key); [apply sorted_sorted|apply concat_seq_sorted|].
  intros v. rewrite sorted_filter. apply filter_concat_perm; [|done].
  rewrite Hperm. apply NoDup_seq.
Qed.
End Assembly.

(** ** What a finished run presents *)

Section HarnessResults.
Context (vllm : Engine) (env : gmap string string).

Lemma worker_batch_gpu i :
  Forall (λ r, gpu_id r = Z.of_nat i) (worker_batch vllm env i).
Proof.
  unfold worker_batch. destruct (gpu_prompts !! i); [apply batch_of_gpu|constructor].
Qed.

(** Once all three children have terminated, each has written. *)
Lemma all_written s arrival :
  invariant vllm env s → arrival_ok s arrival →
  length (processes s) = 3%nat → Forall (λ p, terminated p = true) (processes s) →
  arrival ≡ₚ seq 0 3.
Proof.
  intros Hinv [Hnd Hin] Hlen Hterm.
  apply NoDup_Permutation; [done|apply NoDup_seq|].
  intros i. rewrite Hin, elem_of_seq. split.
  - intros (p & Hi & _). apply lookup_lt_Some in Hi. lia.
  - intros [_ Hi]. destruct (lookup_lt_is_Some_2 (processes s) i) as [p Hp]; [lia|].
    exists p. split; [done|].
    destruct (inv_processes _ _ _ Hinv i p Hp) as [_ Hprompts Hevs _ _].
    rewrite Forall_lookup in Hterm. specialize (Hterm i p Hp).
    unfold terminated in Hterm. destruct (p_pending p); [|done].
    rewrite app_nil_r in Hevs. by rewrite Hevs, worker_events_puts.
Qed.

Lemma finished_all_results s :
  reachable vllm env s → control s = Finished →
  ∃ arrival, arrival ≡ₚ seq 0 3
             ∧ all_results s = concat (worker_batch vllm env <$> arrival)
             ∧ results_queue s = [].
Proof.
  intros Hinv%reachable_invariant Hfin.
  destruct (inv_queue _ _ _ Hinv) as (arrival & Harr & k & Hall & Hq & Hk).
  pose proof (inv_control _ _ _ Hinv) as Hctl. unfold control_ok in Hctl.
  rewrite Hfin in Hctl, Hk. destruct Hctl as [Hlen Hterm].
  exists arrival. split; [by eapply all_written|]. split; [|done].
  rewrite Hk in Hq. symmetry in Hq. apply fmap_nil_inv in Hq.
  assert (take k arrival = arrival) as Htake.
  { rewrite <- (app_nil_r (take k arrival)), <- Hq. apply take_drop. }
  by rewrite Htake in Hall.
Qed.

(** The presented results are the three batches in the order of the
    GPU ids, whatever the order in which the children finished. *)
Lemma ResultSet_finished s :
  reachable vllm env s → control s = Finished →
  ResultSet s = worker_batch vllm env 0 ++ worker_batch vllm env 1 ++ worker_batch vllm env 2.
Proof.
  intros Hreach Hfin.
  destruct (finished_all_results s Hreach Hfin) as (arrival & Hperm & Hall & _).
  unfold ResultSet. rewrite Hall.
  rewrite (sorted_arrival gpu_id (worker_batch vllm env) worker_batch_gpu arrival 3 Hperm).
  simpl. by rewrite app_nil_r.
Qed.

Lemma ResultSet_group s (i : nat) :
  reachable vllm env s → control s = Finished → (i < 3)%nat →
  filter (λ r, gpu_id r = Z.of_nat i) (ResultSet s) = worker_batch vllm env i.
Proof.
  intros Hreach Hfin Hi. rewrite (ResultSet_finished s Hreach Hfin).
  rewrite !filter_app, !(filter_batch gpu_id (worker_batch vllm env) worker_batch_gpu).
  destruct i as [|[|[|]]]; simpl; try lia; by rewrite ?app_nil_r.
Qed.
End HarnessResults.

(** ** The harness never gets stuck, and it terminates *)

Section Termination.
Context (vllm : Engine).




End Termination.

(** ** More facts about events and runs *)

Lemma elem_of_puts batch evs : batch ∈ puts evs ↔ QueuePut batch ∈ evs.
Proof.
  unfold puts. rewrite list_elem_of_omap. split.
  - intros (ev & Hev & Hb). destruct ev; try done. by injection Hb as <-.
  - intros Hev. by exists (QueuePut batch).
Qed.

(** Events other than [os.environ[...] = ...] leave the environment of
    the child as it is. *)
Lemma foldl_environ_after env evs :
  forallb (λ ev, negb (is_SetEnviron ev)) evs = true →
  foldl (λ e ev, environ_after ev e) env evs = env.
Proof.
  induction evs as [|ev evs IH]; simpl; [done|].
  intros [Hev Hevs]%andb_prop. destruct ev; try done; by apply IH.
Qed.

Lemma forallb_prefix {A} (f : A → bool) l1 l2 :
  forallb f (l1 ++ l2) = true → forallb f l1 = true.
Proof. rewrite forallb_app. by intros [? _]%andb_prop. Qed.

Section Runs.
Context (vllm : Engine).

Lemma run_app schedule1 schedule2 s :
  run vllm (schedule1 ++ schedule2) s
  = match run vllm schedule1 s with
    | Some s1 => run vllm schedule2 s1
    | None => None
    end.
Proof.
  revert s. induction schedule1 as [|a schedule1 IH]; intros s; simpl; [done|].
  destruct (step vllm a s); [apply IH|done].
Qed.

Lemma reachable_run env schedule s s' :
  reachable vllm env s → run vllm schedule s = Some s' → reachable vllm env s'.
Proof.
  intros [schedule0 Hs] Hrun. exists (schedule0 ++ schedule). by rewrite run_app, Hs.
Qed.


(** Once the parent drains, only the parent moves, and it moves the
    queue into [all_results]. *)
Lemma run_draining schedule s s' :
  control s = Draining → Forall (λ p, terminated p = true) (processes s) →
  run vllm schedule s = Some s' → control s' = Finished →
  results_queue s' = [] ∧ all_results s' = collect (results_queue s) (all_results s).
Proof.
  revert s. induction schedule as [|a schedule IH]; simpl; intros s Hc Hterm Hrun Hfin.
  - injection Hrun as <-. congruence.
  - destruct a as [|i]; simpl in Hrun.
    + unfold parent_step in Hrun. rewrite Hc in Hrun.
      destruct (results_queue s) as [|b q] eqn:Hq.
      * destruct schedule as [|a schedule]; simpl in Hrun.
        -- by injection Hrun as <-.
        -- destruct a as [|j]; simpl in Hrun; [done|].
           unfold child_step in Hrun; simpl in Hrun.
           destruct (processes s !! j) as [p|] eqn:Hj; [|done].
           rewrite Forall_lookup in Hterm. specialize (Hterm j p Hj).
           unfold terminated in Hterm. by destruct (p_pending p).
      * apply IH in Hrun; [|done|done|done]. simpl in Hrun. done.
    + unfold child_step in Hrun.
      destruct (processes s !! i) as [p|] eqn:Hi; [|done].
      rewrite Forall_lookup in Hterm. specialize (Hterm i p Hi).
      unfold terminated in Hterm. by destruct (p_pending p).
Qed.
End Runs.

(** * The harness properties *)

(** C7.  In every execution of the worker the first thing it does is to
    set [CUDA_VISIBLE_DEVICES] to its own GPU id; this is the only
    assignment to the environment in the whole execution, so every
    engine operation (construction, generation) comes after it, and the
    environment of the worker stays the scoped one from then on. *)
Theorem scoping_once_before_engine vllm gpu name prompts st :
  let scope := SetEnviron "CUDA_VISIBLE_DEVICES" (str gpu) in
  let scoped := <["CUDA_VISIBLE_DEVICES" := str gpu]> (w_environ st) in
  ∃ rest,
    w_events (run_model_on_gpu vllm gpu name prompts st).2 = w_events st ++ scope :: rest
    ∧ forallb (λ ev, negb (is_SetEnviron ev)) rest = true
    ∧ (∀ before ev after,
         scope :: rest = before ++ ev :: after → is_engine_op ev = true → scope ∈ before)
    ∧ (∀ done pending,
         rest = done ++ pending →
         foldl (λ e ev, environ_after ev e) (w_environ st) (scope :: done) = scoped)
    ∧ w_environ (run_model_on_gpu vllm gpu name prompts st).2 = scoped.
Proof.
  intros scope scoped.
  destruct (run_model_on_gpu_scoping vllm gpu name prompts st) as (rest & Hevs & Hrest).
  exists rest. split; [done|]. split; [done|]. split; [|split].
  - intros [|ev0 before] ev after Heq Hop; simpl in Heq.
    + injection Heq as <- _. done.
    + injection Heq as <- _. left.
  - intros done pending ->. simpl. apply foldl_environ_after.
    by eapply forallb_prefix.
  - apply run_model_on_gpu_environ.
Qed.



(** C10.  Every worker writes to the queue exactly once, on the success
    path and on the error path alike: the events of each child hold one
    [results_queue.put].  So when the three children have terminated and
    the parent has not begun to drain, the queue holds exactly three
    batches, one per GPU id, in the order in which they were written. *)
Theorem one_write_per_worker vllm env s :
  reachable vllm env s →
  (∀ i p, processes s !! i = Some p →
          puts (p_done p ++ p_pending p) = [worker_batch vllm env i])
  ∧ (∀ rest, control s = Joining rest →
             Forall (λ p, terminated p = true) (processes s) →
             length (results_queue s) = 3%nat
             ∧ results_queue s ≡ₚ worker_batch vllm env <$> [0; 1; 2]%nat).
Proof.
  intros Hinv%reachable_invariant. split.
  - intros i p Hi. destruct (inv_processes _ _ _ Hinv i p Hi) as [_ Hp Hevs _ _].
    by rewrite Hevs, worker_events_puts.
  - intros rest Hc Hterm.
    destruct (inv_queue _ _ _ Hinv) as (arrival & Harr & k & _ & Hq & Hk).
    pose proof (inv_control _ _ _ Hinv) as Hctl. unfold control_ok in Hctl.
    rewrite Hc in Hctl, Hk. destruct Hctl as [Hlen _]. subst k. rewrite drop_0 in Hq.
    pose proof (all_written vllm env s arrival Hinv Harr Hlen Hterm) as Hperm.
    rewrite Hq. split.
    + by rewrite length_fmap, Hperm.
    + by rewrite Hperm.
Qed.

Lemma one_write_per_worker_witness :
  let s := state_after (faulty_engine 1)
             (spawn_all ++ child_steps 2 6 ++ child_steps 1 5 ++ child_steps 0 6) ∅ in
  (∀ i p, processes s !! i = Some p →
          puts (p_done p ++ p_pending p) = [worker_batch (faulty_engine 1) ∅ i])
  ∧ length (results_queue s) = 3%nat
  ∧ results_queue s ≡ₚ worker_batch (faulty_engine 1) ∅ <$> [0; 1; 2]%nat.
Proof.
  intros s.
  assert (reachable (faulty_engine 1) ∅ s) as Hreach
    by (exists (spawn_all ++ child_steps 2 6 ++ child_steps 1 5 ++ child_steps 0 6);
        vm_compute; reflexivity).
  split.
  - exact (proj1 (one_write_per_worker (faulty_engine 1) ∅ s Hreach)).
  - apply (proj2 (one_write_per_worker (faulty_engine 1) ∅ s Hreach) [0; 1; 2]%nat).
    + vm_compute. reflexivity.
    + vm_compute. repeat constructor.
Defined.

(** C8.  The assignment to [CUDA_VISIBLE_DEVICES] stays in the process
    that makes it.  The environment of the parent is the one it started
    with in every reachable state; the environment of child [i] is that
    same environment, with at most [CUDA_VISIBLE_DEVICES] set to its own
    GPU id; and a step of child [i] leaves the parent's environment and
    every other child as they are. *)
Theorem environ_confined vllm env s :
  reachable vllm env s →
  environ s = env
  ∧ (∀ i p, processes s !! i = Some p →
            p_environ p = env
            ∨ p_environ p = <["CUDA_VISIBLE_DEVICES" := str (Z.of_nat i)]> env)
  ∧ (∀ i s', child_step i s = Some s' →
             environ s' = environ s
             ∧ ∀ j, j ≠ i → processes s' !! j = processes s !! j).
Proof.
  intros Hinv%reachable_invariant. split; [apply (inv_environ _ _ _ Hinv)|]. split.
  - intros i p Hi.
    destruct (inv_processes _ _ _ Hinv i p Hi) as [_ [prompts Hp] Hevs _ Henv].
    unfold worker_events, target in Hevs. rewrite Hp in Hevs.
    destruct (run_model_on_gpu_scoping vllm (Z.of_nat i) model_name prompts
                {| w_environ := env; w_events := [] |}) as (rest & Hrest & Hno).
    rewrite Hrest in Hevs. simpl in Hevs. rewrite Henv. unfold replay.
    destruct (p_done p) as [|ev done]; [by left|right].
    simpl in Hevs. injection Hevs as -> Hevs. simpl.
    apply foldl_environ_after. rewrite <- Hevs in Hno. by eapply forallb_prefix.
  - intros i s' Hstep. unfold child_step in Hstep.
    destruct (processes s !! i) as [p|]; [|done].
    destruct (p_pending p) as [|ev rest]; [done|].
    injection Hstep as <-. simpl. split; [done|].
    intros j Hj. by apply list_lookup_insert_ne.
Qed.

Lemma environ_confined_witness :
  let env : gmap string string := {[ "HOME" := "/root" ]} in
  let s := state_after echo_engine (spawn_all ++ child_steps 2 3 ++ child_steps 0 1) env in
  environ s = env
  ∧ (∀ i p, processes s !! i = Some p →
            p_environ p = env
            ∨ p_environ p = <["CUDA_VISIBLE_DEVICES" := str (Z.of_nat i)]> env)
  ∧ (∀ i s', child_step i s = Some s' →
             environ s' = environ s
             ∧ ∀ j, j ≠ i → processes s' !! j = processes s !! j).
Proof.
  intros env s. apply (environ_confined echo_engine env s).
  exists (spawn_all ++ child_steps 2 3 ++ child_steps 0 1). vm_compute. reflexivity.
Defined.

(** C6.  The parent collects in two phases.  A [join] can only be
    passed when the child it waits for has terminated, and the parent
    does not touch the queue before it drains; so whenever the parent
    drains (or is past draining) all three children have terminated.
    The drain loop then runs until the queue is empty, however many
    batches it holds, and every entry of every batch that was in the
    queue is in [all_results] at the end. *)
Theorem join_all_then_drain vllm env s :
  reachable vllm env s →
  (∀ i rest, control s = Joining (i :: rest) →
             (is_Some (parent_step vllm s)
              ↔ ∃ p, processes s !! i = Some p ∧ terminated p = true))
  ∧ (∀ s', parent_step vllm s = Some s' → control s ≠ Draining →
           results_queue s' = results_queue s)
  ∧ (control s = Draining ∨ control s = Finished →
     length (processes s) = 3%nat ∧ Forall (λ p, terminated p = true) (processes s))
  ∧ (control s = Draining →
     ∀ schedule s', run vllm schedule s = Some s' → control s' = Finished →
       results_queue s' = []
       ∧ all_results s' = collect (results_queue s) (all_results s)
       ∧ ∀ batch r, batch ∈ results_queue s → r ∈ batch → r ∈ all_results s').
Proof.
  intros Hinv%reachable_invariant.
  pose proof (inv_control _ _ _ Hinv) as Hctl. unfold control_ok in Hctl.
  split; [|split; [|split]].
  - intros i rest Hc. unfold parent_step. rewrite Hc.
    destruct (processes s !! i) as [p|]; [|split; [by intros []|by intros (?&?&?)]].
    destruct (terminated p) eqn:Hp.
    + split; [by exists p|eauto].
    + split; [by intros []|]. intros (p' & [= <-] & Hp'). congruence.
  - intros s' Hstep Hnd. unfold parent_step in Hstep.
    destruct (control s) as [[|gpu rest]|[|i rest]| |]; try done.
    + by injection Hstep as <-.
    + destruct (gpu_prompts !! Z.to_nat gpu); [|done]. by injection Hstep as <-.
    + by injection Hstep as <-.
    + destruct (processes s !! i) as [p|]; [|done].
      destruct (terminated p); [|done]. by injection Hstep as <-.
  - intros [Hc|Hc]; by rewrite Hc in Hctl.
  - intros Hc schedule s' Hrun Hfin. rewrite Hc in Hctl. destruct Hctl as [_ Hterm].
    destruct (run_draining vllm schedule s s' Hc Hterm Hrun Hfin) as [Hq Hall].
    split; [done|]. split; [done|].
    intros batch r Hb Hr. rewrite Hall, collect_concat, elem_of_app, elem_of_concat.
    right. by exists batch.
Qed.

Lemma join_all_then_drain_witness :
  let s := state_after echo_engine before_drain ∅ in
  let s' := state_after echo_engine (before_drain ++ replicate 4 Parent) ∅ in
  length (processes s) = 3%nat
  ∧ length (results_queue s) = 3%nat
  ∧ results_queue s' = []
  ∧ all_results s' = collect (results_queue s) (all_results s).
Proof.
  intros s s'.
  assert (reachable echo_engine ∅ s) as Hreach
    by (exists before_drain; vm_compute; reflexivity).
  assert (control s = Draining) as Hc by (vm_compute; reflexivity).
  assert (run echo_engine (replicate 4 Parent) s = Some s') as Hrun
    by (vm_compute; reflexivity).
  assert (control s' = Finished) as Hfin by (vm_compute; reflexivity).
  destruct (join_all_then_drain echo_engine ∅ s Hreach) as (_ & _ & Hjoined & Hdrain).
  split; [apply Hjoined; by left|]. split; [vm_compute; reflexivity|].
  destruct (Hdrain Hc _ s' Hrun Hfin) as (Hq & Hall & _).
  split; [exact Hq|exact Hall].
Defined.

Lemma written_terminated vllm env (l : list process) j :
  (∀ i p, l !! i = Some p → puts (p_done p) = [worker_batch vllm env (j + i)]) →
  concat ((λ p, puts (p_done p)) <$> l) = worker_batch vllm env <$> seq j (length l).
Proof.
  revert j. induction l as [|p l IH]; intros j Hl; simpl; [done|].
  rewrite (Hl 0%nat p eq_refl), Nat.add_0_r. simpl. f_equal.
  apply IH. intros i q Hi.
  replace (S j + i)%nat with (j + S i)%nat by lia. by apply (Hl (S i)).
Qed.

(** C9.  Every batch a child writes holds only entries that carry the
    GPU id of that child; the batches in the queue are batches that some
    child has written; and what the parent presents at the end is a
    rearrangement of the entries the children wrote, each entry as it
    was written, and each written by the child that owns its GPU id. *)
Theorem results_owned_and_unchanged vllm env s :
  reachable vllm env s →
  (∀ i p batch, processes s !! i = Some p →
                QueuePut batch ∈ p_done p ++ p_pending p →
                Forall (λ r, gpu_id r = p_gpu p) batch)
  ∧ (∀ batch, batch ∈ results_queue s →
              ∃ i p, processes s !! i = Some p ∧ QueuePut batch ∈ p_done p)
  ∧ (control s = Finished →
     ResultSet s ≡ₚ concat (written s)
     ∧ ∀ r, r ∈ ResultSet s →
            ∃ i p batch, processes s !! i = Some p ∧ p_gpu p = gpu_id r
                         ∧ QueuePut batch ∈ p_done p ∧ r ∈ batch).
Proof.
  intros Hreach. pose proof (reachable_invariant _ _ _ Hreach) as Hinv.
  assert (∀ i p batch, processes s !! i = Some p →
                       QueuePut batch ∈ p_done p ++ p_pending p →
                       batch = worker_batch vllm env i ∧ p_gpu p = Z.of_nat i) as Hown.
  { intros i p batch Hi Hb.
    destruct (inv_processes _ _ _ Hinv i p Hi) as [Hgpu Hp Hevs _ _].
    apply elem_of_puts in Hb. rewrite Hevs, worker_events_puts in Hb by done.
    by apply list_elem_of_singleton in Hb. }
  split; [|split].
  - intros i p batch Hi Hb. destruct (Hown i p batch Hi Hb) as [-> ->].
    apply worker_batch_gpu.
  - intros batch Hb.
    destruct (inv_queue _ _ _ Hinv) as (arrival & [_ Harr] & k & _ & Hq & _).
    rewrite Hq in Hb. apply list_elem_of_fmap in Hb as (i & -> & Hi).
    apply (subseteq_drop k arrival) in Hi. apply Harr in Hi as (p & Hi & Hput).
    exists i, p. split; [done|].
    destruct (inv_processes _ _ _ Hinv i p Hi) as [_ Hp Hevs _ _].
    apply (f_equal puts) in Hevs. rewrite puts_app, worker_events_puts in Hevs by done.
    apply elem_of_puts. destruct (puts (p_done p)) as [|b l]; [done|].
    simpl in Hevs. injection Hevs as -> _. left.
  - intros Hfin.
    destruct (finished_all_results vllm env s Hreach Hfin) as (arrival & Hperm & Hall & _).
    pose proof (inv_control _ _ _ Hinv) as Hctl. unfold control_ok in Hctl.
    rewrite Hfin in Hctl. destruct Hctl as [Hlen Hterm].
    assert (written s = worker_batch vllm env <$> seq 0 3) as Hwritten.
    { unfold written. rewrite <- Hlen. apply written_terminated. intros i p Hi. simpl.
      destruct (inv_processes _ _ _ Hinv i p Hi) as [_ Hp Hevs _ _].
      rewrite Forall_lookup in Hterm. specialize (Hterm i p Hi).
      unfold terminated in Hterm. destruct (p_pending p); [|done].
      rewrite app_nil_r in Hevs. by rewrite Hevs, worker_events_puts. }
    assert (ResultSet s ≡ₚ concat (written s)) as Hrs.
    { unfold ResultSet. by rewrite sorted_perm, Hall, Hwritten, Hperm. }
    split; [done|]. intros r Hr. rewrite Hrs in Hr.
    apply elem_of_concat in Hr as (batch & Hr & Hb). unfold written in Hb.
    apply elem_of_concat in Hb as (bs & Hb & Hbs).
    apply list_elem_of_fmap in Hbs as (p & -> & Hp).
    apply list_elem_of_lookup in Hp as [i Hi].
    apply elem_of_puts in Hb.
    destruct (Hown i p batch Hi) as [-> Hgpu]; [apply elem_of_app; by left|].
    exists i, p, (worker_batch vllm env i). split; [done|]. split; [|done].
    pose proof (worker_batch_gpu vllm env i) as Hw. rewrite Forall_forall in Hw.
    by rewrite Hgpu, (Hw r Hr).
Qed.

Lemma results_owned_and_unchanged_witness :
  let s := state_after echo_engine reverse_order ∅ in
  ResultSet s ≡ₚ concat (written s)
  ∧ ∀ r, r ∈ ResultSet s →
         ∃ i p batch, processes s !! i = Some p ∧ p_gpu p = gpu_id r
                      ∧ QueuePut batch ∈ p_done p ∧ r ∈ batch.
Proof.
  intros s. apply (results_owned_and_unchanged echo_engine ∅ s).
  - exists reverse_order. vm_compute. reflexivity.
  - vm_compute. reflexivity.
Defined.

(** C1, as the claim states it, fails: the worker whose computation
    raises writes an empty batch, so the finished run presents no entry
    at all for the two prompts that were dispatched to GPU 1. *)
Lemma failed_worker_has_no_entries :
  let s := state_after (faulty_engine 1) reverse_order_faulty ∅ in
  reachable (faulty_engine 1) ∅ s
  ∧ control s = Finished
  ∧ (∃ p q, gpu_prompts !! 1%nat = Some [p; q])
  ∧ ¬ ∃ r, r ∈ ResultSet s ∧ gpu_id r = 1.
Proof.
  intros s. split; [|split; [|split]].
  - exists reverse_order_faulty. vm_compute. reflexivity.
  - vm_compute. reflexivity.
  - eexists _, _. reflexivity.
  - intros (r & Hr & Hgpu).
    assert (filter (λ r, gpu_id r = 1) (ResultSet s) = []) as Hnone
      by (vm_compute; reflexivity).
    eapply filter_nil_not_elem_of; [exact Hnone| |exact Hr]. exact Hgpu.
Qed.

(** C1, amended.  In a finished run the entries with GPU id [i] are
    the batch of worker [i], in the order of that batch.  When the
    computation of the worker returns one output per prompt, each with
    a completion, these are exactly one entry per prompt of the
    assignment, in the order of the prompts, each with its prompt and the
    stripped text generated for it.  When the computation raises, there
    is no entry with that GPU id. *)
Theorem entries_of_each_assignment vllm env s (i : nat) prompts :
  reachable vllm env s →
  control s = Finished →
  gpu_prompts !! i = Some prompts →
  let group := filter (λ r, gpu_id r = Z.of_nat i) (ResultSet s) in
  (∀ outs texts,
     inference vllm env (Z.of_nat i) model_name prompts = Returned outs →
     length outs = length prompts →
     first_texts outs texts →
     group = zip_with (entry (Z.of_nat i)) prompts texts
     ∧ length group = length prompts)
  ∧ (∀ e, computation vllm env (Z.of_nat i) model_name prompts = Raised e → group = []).
Proof.
  intros Hreach Hfin Hp group.
  assert (group = worker_batch vllm env i) as ->.
  { apply ResultSet_group; [done|done|]. by apply lookup_lt_Some in Hp. }
  unfold worker_batch, batch_of. rewrite Hp. split.
  - intros outs texts Hinf Hlen Htexts. unfold computation. rewrite Hinf.
    rewrite (collect_results_all _ _ _ texts) by done. split; [done|].
    rewrite length_zip_with. apply Forall2_length in Htexts. lia.
  - by intros e ->.
Qed.

Lemma entries_of_each_assignment_witness :
  let s := state_after (faulty_engine 1) reverse_order_faulty ∅ in
  let p := "Current date context: Today is August 16, 2025. Question: What year is it currently?" in
  let q := "Current date context: Today is August 16, 2025. Question: What month and year is it currently?" in
  (filter (λ r, gpu_id r = Z.of_nat 0) (ResultSet s)
   = zip_with (entry (Z.of_nat 0)) [p; q] ["echo:" +:+ p; "echo:" +:+ q]
   ∧ length (filter (λ r, gpu_id r = Z.of_nat 0) (ResultSet s)) = length [p; q])
  ∧ filter (λ r, gpu_id r = Z.of_nat 1) (ResultSet s) = [].
Proof.
  intros s p q.
  assert (reachable (faulty_engine 1) ∅ s) as Hreach
    by (exists reverse_order_faulty; vm_compute; reflexivity).
  assert (control s = Finished) as Hfin by (vm_compute; reflexivity).
  split.
  - apply (proj1 (entries_of_each_assignment (faulty_engine 1) ∅ s 0 [p; q]
                    Hreach Hfin eq_refl)
             [ {| outputs := [ {| text := "echo:" +:+ p |} ] |};
               {| outputs := [ {| text := "echo:" +:+ q |} ] |} ]).
    + vm_compute. reflexivity.
    + reflexivity.
    + repeat constructor.
  - apply (proj2 (entries_of_each_assignment (faulty_engine 1) ∅ s 1 _
                    Hreach Hfin eq_refl)
             {| exc_type := "RuntimeError"; exc_msg := "CUDA out of memory" |}).
    vm_compute. reflexivity.
Defined.

(** C4, as the claim states it, fails: an entry does not carry the text
    as the engine produced it but the text with the white space at both
    ends removed. *)
Lemma entry_text_is_stripped :
  let s := state_after padded_engine reverse_order ∅ in
  let p := "Current date context: Today is August 16, 2025. Question: What year is it currently?" in
  let q := "Current date context: Today is August 16, 2025. Question: What month and year is it currently?" in
  reachable padded_engine ∅ s
  ∧ control s = Finished
  ∧ inference padded_engine ∅ 0 model_name [p; q]
    = Returned [ {| outputs := [ {| text := " echo:" +:+ p +:+ newline |} ] |};
                 {| outputs := [ {| text := " echo:" +:+ q +:+ newline |} ] |} ]
  ∧ ∃ r, ResultSet s !! 0%nat = Some r
         ∧ gpu_id r = 0 ∧ prompt r = p
         ∧ response r = "echo:" +:+ p
         ∧ response r ≠ " echo:" +:+ p +:+ newline.
Proof.
  intros s p q. split; [|split; [|split]].
  - exists reverse_order. vm_compute. reflexivity.
  - vm_compute. reflexivity.
  - vm_compute. reflexivity.
  - eexists. split; [vm_compute; reflexivity|]. simpl. by repeat split.
Qed.

(** C4, amended.  With the three assignments of the script (GPU ids 0, 1
    and 2, two prompts each), when every worker computation returns one
    output per prompt, each with a completion, the finished run presents
    exactly six entries, grouped by GPU id 0, then 1, then 2, and the
    entry at index [j] of group [i] carries the [j]-th prompt of
    assignment [i] together with the text of the first completion
    generated for that prompt, stripped of the white space at both
    ends. *)
Theorem three_assignments_of_two vllm env s (texts : nat → list string) :
  reachable vllm env s →
  control s = Finished →
  (∀ i prompts, gpu_prompts !! i = Some prompts →
     ∃ outs, inference vllm env (Z.of_nat i) model_name prompts = Returned outs
             ∧ length outs = length prompts
             ∧ first_texts outs (texts i)) →
  length (ResultSet s) = 6%nat
  ∧ gpu_id <$> ResultSet s = [0; 0; 1; 1; 2; 2]
  ∧ ∀ i j prompts p t,
      gpu_prompts !! i = Some prompts → prompts !! j = Some p → texts i !! j = Some t →
      ResultSet s !! (2 * i + j)%nat = Some (entry (Z.of_nat i) p t).
Proof.
  intros Hreach Hfin Hok.
  assert (∀ i prompts, gpu_prompts !! i = Some prompts →
            worker_batch vllm env i = zip_with (entry (Z.of_nat i)) prompts (texts i)
            ∧ length (texts i) = length prompts) as Hbatch.
  { intros i prompts Hp. destruct (Hok i prompts Hp) as (outs & Hinf & Hlen & Htexts).
    unfold worker_batch, batch_of, computation. rewrite Hp, Hinf.
    rewrite (collect_results_all _ _ _ (texts i)) by done.
    split; [done|]. apply Forall2_length in Htexts. lia. }
  rewrite (ResultSet_finished vllm env s Hreach Hfin).
  destruct (Hbatch 0%nat _ eq_refl) as [-> Hl0].
  destruct (Hbatch 1%nat _ eq_refl) as [-> Hl1].
  destruct (Hbatch 2%nat _ eq_refl) as [-> Hl2].
  destruct (texts 0%nat) as [|t00 [|t01 [|]]] eqn:Ht0; try done.
  destruct (texts 1%nat) as [|t10 [|t11 [|]]] eqn:Ht1; try done.
  destruct (texts 2%nat) as [|t20 [|t21 [|]]] eqn:Ht2; try done.
  split; [done|]. split; [done|].
  intros i j prompts p t Hp Hj Ht.
  destruct i as [|[|[|i]]]; [| | |done].
  - injection Hp as <-. rewrite Ht0 in Ht.
    destruct j as [|[|j]]; [| |done]; injection Hj as <-; by injection Ht as <-.
  - injection Hp as <-. rewrite Ht1 in Ht.
    destruct j as [|[|j]]; [| |done]; injection Hj as <-; by injection Ht as <-.
  - injection Hp as <-. rewrite Ht2 in Ht.
    destruct j as [|[|j]]; [| |done]; injection Hj as <-; by injection Ht as <-.
Qed.

Lemma three_assignments_of_two_witness :
  let s := state_after echo_engine reverse_order ∅ in
  length (ResultSet s) = 6%nat
  ∧ gpu_id <$> ResultSet s = [0; 0; 1; 1; 2; 2]
  ∧ ∀ i j prompts p t,
      gpu_prompts !! i = Some prompts → prompts !! j = Some p → echo_texts i !! j = Some t →
      ResultSet s !! (2 * i + j)%nat = Some (entry (Z.of_nat i) p t).
Proof.
  intros s. apply (three_assignments_of_two echo_engine ∅ s echo_texts).
  - exists reverse_order. vm_compute. reflexivity.
  - vm_compute. reflexivity.
  - intros i prompts Hp.
    destruct i as [|[|[|i]]]; [| | |done]; injection Hp as <-;
      (eexists; split; [vm_compute; reflexivity|]; split; [reflexivity|]);
      repeat constructor.
Defined.




(** ** The order of the presented results *)




Section Order.
Context (batch : nat → list result).
Hypothesis batch_gpu : ∀ i, Forall (λ r, gpu_id r = Z.of_nat i) (batch i).



End Order.




(** * Further properties *)

(** ** The result loop of the worker *)

Lemma collect_results_raises gpu prompts outs k acc :
  (k ≤ length prompts)%nat →
  (length prompts < k + length outs)%nat ∨ Exists (λ o, outputs o = []) outs →
  collect_results gpu prompts (zip (seq k (length outs)) outs) acc = Raised IndexError.
Proof.
  revert k acc. induction outs as [|o outs IH]; intros k acc Hk Hbad.
  - destruct Hbad as [Hlen|Hex]; [simpl in Hlen; lia|by apply Exists_nil in Hex].
  - simpl. destruct (prompts !! k) as [p|] eqn:Hp; [|done].
    apply lookup_lt_Some in Hp.
    destruct (outputs o) as [|c cs] eqn:Ho; [done|]. simpl.
    apply IH; [lia|]. destruct Hbad as [Hlen|Hex].
    + left. simpl in Hlen. lia.
    + right. apply Exists_cons in Hex as [Hex|Hex]; [congruence|done].
Qed.

(** X1.  When the engine returns no more outputs than there are
    prompts, each with a completion, the batch pairs the outputs with
    the first prompts, in order, and holds the stripped texts.  Prompts
    for which the engine returned no output get no entry, and the worker
    does not report them. *)
Theorem batch_pairs_outputs_with_prompts vllm env gpu name prompts outs texts :
  inference vllm env gpu name prompts = Returned outs →
  first_texts outs texts →
  (length outs ≤ length prompts)%nat →
  computation vllm env gpu name prompts = Returned (zip_with (entry gpu) prompts texts)
  ∧ batch_of vllm env gpu name prompts = zip_with (entry gpu) prompts texts
  ∧ length (batch_of vllm env gpu name prompts) = length outs.
Proof.
  intros Hinf Htexts Hlen.
  assert (computation vllm env gpu name prompts
          = Returned (zip_with (entry gpu) prompts texts)) as Hc.
  { unfold computation, enumerate. rewrite Hinf.
    by rewrite (collect_results_from gpu prompts outs texts 0 []). }
  unfold batch_of. rewrite Hc. split; [done|]. split; [done|].
  rewrite length_zip_with. apply Forall2_length in Htexts. lia.
Qed.

Lemma batch_pairs_outputs_with_prompts_witness :
  computation terse_engine ∅ 2 "m" ["a"; "b"] = Returned (zip_with (entry 2) ["a"; "b"] ["echo:a"])
  ∧ batch_of terse_engine ∅ 2 "m" ["a"; "b"] = zip_with (entry 2) ["a"; "b"] ["echo:a"]
  ∧ length (batch_of terse_engine ∅ 2 "m" ["a"; "b"]) = length [ {| outputs := [ {| text := "echo:a" |} ] |} ].
Proof.
  apply (batch_pairs_outputs_with_prompts terse_engine ∅ 2 "m" ["a"; "b"]
           [ {| outputs := [ {| text := "echo:a" |} ] |} ] ["echo:a"]).
  - vm_compute. reflexivity.
  - repeat constructor.
  - simpl. lia.
Defined.

(** X2.  When the engine returns more outputs than there are prompts,
    or an output without a completion, the loop raises [IndexError]:
    the entries built so far are dropped and the worker writes the empty
    batch. *)
Theorem surplus_or_empty_output_drops_batch vllm env gpu name prompts outs :
  inference vllm env gpu name prompts = Returned outs →
  (length prompts < length outs)%nat ∨ Exists (λ o, outputs o = []) outs →
  computation vllm env gpu name prompts = Raised IndexError
  ∧ batch_of vllm env gpu name prompts = []
  ∧ puts (w_events (run_model_on_gpu vllm gpu name prompts
                      {| w_environ := env; w_events := [] |}).2) = [[]].
Proof.
  intros Hinf Hbad.
  assert (computation vllm env gpu name prompts = Raised IndexError) as Hc.
  { unfold computation, enumerate. rewrite Hinf.
    apply collect_results_raises; [lia|]. destruct Hbad; [left; lia|by right]. }
  assert (batch_of vllm env gpu name prompts = []) as Hb
    by (unfold batch_of; by rewrite Hc).
  split; [done|]. split; [done|].
  rewrite run_model_on_gpu_puts. simpl. by rewrite Hb.
Qed.

Lemma surplus_or_empty_output_drops_batch_witness :
  computation hollow_engine ∅ 0 "m" ["a"; "b"] = Raised IndexError
  ∧ batch_of hollow_engine ∅ 0 "m" ["a"; "b"] = []
  ∧ puts (w_events (run_model_on_gpu hollow_engine 0 "m" ["a"; "b"]
                      {| w_environ := ∅; w_events := [] |}).2) = [[]].
Proof.
  apply (surplus_or_empty_output_drops_batch hollow_engine ∅ 0 "m" ["a"; "b"]
           [ {| outputs := [ {| text := "one" |} ] |}; {| outputs := [] |} ]).
  - vm_compute. reflexivity.
  - right. apply Exists_cons_tl, Exists_cons_hd. reflexivity.
Defined.

Lemma collect_results_entries gpu prompts enumerated acc results :
  collect_results gpu prompts enumerated acc = Returned results →
  ∃ new, results = acc ++ new
         ∧ length new = length enumerated
         ∧ ∀ j r, new !! j = Some r →
             ∃ i o c, enumerated !! j = Some (i, o)
                      ∧ prompts !! i = Some (prompt r)
                      ∧ outputs o !! 0%nat = Some c
                      ∧ r = entry gpu (prompt r) (text c).
Proof.
  revert acc. induction enumerated as [|[i o] rest IH]; simpl; intros acc Hc.
  - injection Hc as <-. exists []. rewrite app_nil_r. split; [done|]. split; [done|].
    intros j r Hj. by rewrite lookup_nil in Hj.
  - destruct (prompts !! i) as [p|] eqn:Hp; [|done].
    destruct (outputs o !! 0%nat) as [c|] eqn:Ho; [|done].
    apply IH in Hc as (new & -> & Hlen & Hnew).
    exists ({| gpu_id := gpu; prompt := p; response := strip (text c) |} :: new).
    split; [by rewrite <- (assoc_L (++))|]. split; [simpl; lia|].
    intros [|j] r Hj; simpl in Hj.
    + injection Hj as <-. by exists i, o, c.
    + by apply Hnew.
Qed.

Lemma enumerate_lookup {A} (l : list A) j i x :
  enumerate l !! j = Some (i, x) → i = j ∧ l !! j = Some x.
Proof.
  unfold enumerate. intros Hj.
  apply lookup_zip_with_Some in Hj as (i' & x' & [= -> ->] & Hi & Hx).
  apply lookup_seq in Hi as [-> _]. done.
Qed.

(** Whatever the engine returns, entry [j] of a batch carries prompt [j]
    of the worker and the stripped text of the first completion of
    output [j]; a batch is never longer than the list of prompts. *)
Lemma batch_of_entries vllm env gpu name prompts :
  (length (batch_of vllm env gpu name prompts) ≤ length prompts)%nat
  ∧ ∀ j r, batch_of vllm env gpu name prompts !! j = Some r →
      prompts !! j = Some (prompt r)
      ∧ gpu_id r = gpu
      ∧ ∃ outs o c, inference vllm env gpu name prompts = Returned outs
                    ∧ outs !! j = Some o
                    ∧ outputs o !! 0%nat = Some c
                    ∧ response r = strip (text c).
Proof.
  unfold batch_of, computation.
  destruct (inference vllm env gpu name prompts) as [outs|e] eqn:Hinf;
    [|split; [simpl; lia|intros j r Hj; by rewrite lookup_nil in Hj]].
  destruct (collect_results gpu prompts (enumerate outs) []) as [results|e] eqn:Hc;
    [|split; [simpl; lia|intros j r Hj; by rewrite lookup_nil in Hj]].
  apply collect_results_entries in Hc as (new & -> & Hlen & Hnew). simpl.
  assert (∀ j r, new !! j = Some r →
            prompts !! j = Some (prompt r) ∧ gpu_id r = gpu
            ∧ ∃ outs0 o c, Returned outs = Returned outs0 ∧ outs0 !! j = Some o
                           ∧ outputs o !! 0%nat = Some c ∧ response r = strip (text c))
    as Hall.
  { intros j r Hj. destruct (Hnew j r Hj) as (i & o & c & Hen & Hp & Ho & Hr).
    apply enumerate_lookup in Hen as [-> Hout].
    split; [done|]. split; [by rewrite Hr|]. exists outs, o, c. by rewrite Hr. }
  split; [|done].
  destruct (decide (length new ≤ length prompts)%nat) as [|Hgt]; [done|].
  destruct (lookup_lt_is_Some_2 new (length prompts)) as [r Hr]; [lia|].
  destruct (Hall _ r Hr) as [Hp _]. apply lookup_lt_Some in Hp. lia.
Qed.

(** X3.  Whatever the engine returns, a finished run presents nothing
    that was not dispatched: at most six entries, and the entry at index
    [j] among those of GPU [i] carries GPU id [i], the [j]-th prompt of
    assignment [i], and the stripped first completion of the [j]-th
    output that the engine returned to worker [i]. *)
Theorem only_dispatched_prompts_presented vllm env s :
  reachable vllm env s →
  control s = Finished →
  (length (ResultSet s) ≤ 6)%nat
  ∧ ∀ (i j : nat) r,
      (i < 3)%nat →
      filter (λ r, gpu_id r = Z.of_nat i) (ResultSet s) !! j = Some r →
      ∃ prompts outs o c,
        gpu_prompts !! i = Some prompts
        ∧ prompts !! j = Some (prompt r)
        ∧ inference vllm env (Z.of_nat i) model_name prompts = Returned outs
        ∧ outs !! j = Some o
        ∧ outputs o !! 0%nat = Some c
        ∧ response r = strip (text c).
Proof.
  intros Hreach Hfin. split.
  - assert (∀ i, (length (worker_batch vllm env i) ≤ 2)%nat) as Hle.
    { intros i. unfold worker_batch.
      destruct (gpu_prompts !! i) as [prompts|] eqn:Hp; [|simpl; lia].
      pose proof (proj1 (batch_of_entries vllm env (Z.of_nat i) model_name prompts)) as Hb.
      assert (length prompts = 2%nat) as Hlen
        by (destruct i as [|[|[|i]]]; [| | |done]; by injection Hp as <-).
      lia. }
    rewrite (ResultSet_finished vllm env s Hreach Hfin), !length_app.
    pose proof (Hle 0%nat). pose proof (Hle 1%nat). pose proof (Hle 2%nat). lia.
  - intros i j r Hi Hj.
    rewrite (ResultSet_group vllm env s i Hreach Hfin Hi) in Hj.
    unfold worker_batch in Hj.
    destruct (gpu_prompts !! i) as [prompts|] eqn:Hp;
      [|by rewrite lookup_nil in Hj].
    destruct (proj2 (batch_of_entries vllm env (Z.of_nat i) model_name prompts) j r Hj)
      as (Hpr & _ & outs & o & c & Hinf & Ho & Hc & Hresp).
    by exists prompts, outs, o, c.
Qed.

Lemma only_dispatched_prompts_presented_witness :
  let s := state_after terse_engine reverse_order ∅ in
  (length (ResultSet s) ≤ 6)%nat
  ∧ ∀ (i j : nat) r,
      (i < 3)%nat →
      filter (λ r, gpu_id r = Z.of_nat i) (ResultSet s) !! j = Some r →
      ∃ prompts outs o c,
        gpu_prompts !! i = Some prompts
        ∧ prompts !! j = Some (prompt r)
        ∧ inference terse_engine ∅ (Z.of_nat i) model_name prompts = Returned outs
        ∧ outs !! j = Some o
        ∧ outputs o !! 0%nat = Some c
        ∧ response r = strip (text c).
Proof.
  intros s. apply (only_dispatched_prompts_presented terse_engine ∅ s).
  - exists reverse_order. vm_compute. reflexivity.
  - vm_compute. reflexivity.
Defined.

(** ** [strip] *)

Lemma lstrip_spec s :
  ∃ pre, s = pre +:+ lstrip s
         ∧ all_space pre = true
         ∧ ∀ c, first_char (lstrip s) = Some c → isspace c = false.
Proof.
  induction s as [|c s (pre & Hs & Hpre & Hfirst)]; simpl.
  - exists "". by repeat split.
  - destruct (isspace c) eqn:Hc.
    + exists (String c pre). simpl. rewrite Hc, Hpre. split; [exact (f_equal (String c) Hs)|done].
    + exists "". simpl. split; [done|]. split; [done|]. by intros c' [= <-].
Qed.

Lemma rstrip_spec s :
  ∃ post, s = rstrip s +:+ post
          ∧ all_space post = true
          ∧ ∀ c, last_char (rstrip s) = Some c → isspace c = false.
Proof.
  induction s as [|c s (post & Hs & Hpost & Hlast)]; simpl.
  - exists "". by repeat split.
  - destruct (rstrip s) as [|c' r] eqn:Hr.
    + simpl in Hs. destruct (isspace c) eqn:Hc.
      * exists (String c post). simpl. rewrite Hc, Hpost. split; [exact (f_equal (String c) Hs)|done].
      * exists post. simpl. split; [exact (f_equal (String c) Hs)|]. split; [done|].
        by intros c0 [= <-].
    + exists post. simpl. split; [exact (f_equal (String c) Hs)|]. split; [done|].
      intros c0 Hc0. apply Hlast. simpl. by destruct r.
Qed.

Lemma rstrip_first_char s c : first_char s = Some c → isspace c = false →
  first_char (rstrip s) = Some c.
Proof.
  destruct s as [|c0 s]; [done|]. simpl. intros [= ->] Hc.
  destruct (rstrip s); [by rewrite Hc|done].
Qed.

Lemma lstrip_fixed s : (∀ c, first_char s = Some c → isspace c = false) → lstrip s = s.
Proof. destruct s as [|c s]; [done|]. simpl. intros Hc. by rewrite (Hc c eq_refl). Qed.

Lemma rstrip_fixed s : (∀ c, last_char s = Some c → isspace c = false) → rstrip s = s.
Proof.
  induction s as [|c s IH]; [done|]. simpl. intros Hlast.
  destruct s as [|c' s'].
  - simpl. by rewrite (Hlast c eq_refl).
  - rewrite IH by done. done.
Qed.

Lemma strip_facts s :
  (∃ pre post, s = pre +:+ strip s +:+ post
               ∧ all_space pre = true ∧ all_space post = true)
  ∧ (∀ c, first_char (strip s) = Some c → isspace c = false)
  ∧ (∀ c, last_char (strip s) = Some c → isspace c = false)
  ∧ strip (strip s) = strip s.
Proof.
  unfold strip.
  destruct (lstrip_spec s) as (pre & Hs & Hpre & Hfirst).
  destruct (rstrip_spec (lstrip s)) as (post & Ht & Hpost & Hlast).
  assert (∀ c, first_char (rstrip (lstrip s)) = Some c → isspace c = false) as Hfirst'.
  { intros c Hc. destruct (first_char (lstrip s)) as [c0|] eqn:Hc0.
    - rewrite (rstrip_first_char _ c0 Hc0 (Hfirst c0 eq_refl)) in Hc.
      injection Hc as <-. by apply Hfirst.
    - destruct (lstrip s); [done|done]. }
  split; [|split; [done|split; [done|]]].
  - exists pre, post. split; [|done]. by rewrite <- Ht.
  - rewrite (lstrip_fixed _ Hfirst'). by apply rstrip_fixed.
Qed.

(** X4.  [strip] removes white space at both ends and nothing else: the
    string is its stripped form between two runs of white space, and the
    stripped form neither begins nor ends with white space.  Stripping
    again changes nothing. *)
Theorem strip_spec s :
  (∃ pre post, s = pre +:+ strip s +:+ post
               ∧ all_space pre = true ∧ all_space post = true)
  ∧ (∀ c, first_char (strip s) = Some c → isspace c = false)
  ∧ (∀ c, last_char (strip s) = Some c → isspace c = false)
  ∧ strip (strip s) = strip s.
Proof. apply strip_facts. Qed.

(** X5.  Every response that a finished run presents is stripped: it
    neither begins nor ends with white space, whatever the engine
    generated. *)
Theorem presented_responses_are_stripped vllm env s r :
  reachable vllm env s →
  control s = Finished →
  r ∈ ResultSet s →
  strip (response r) = response r
  ∧ (∀ c, first_char (response r) = Some c → isspace c = false)
  ∧ (∀ c, last_char (response r) = Some c → isspace c = false).
Proof.
  intros Hreach Hfin Hr.
  assert (∃ t, response r = strip t) as [t ->].
  { rewrite (ResultSet_finished vllm env s Hreach Hfin) in Hr.
    assert (∃ i, r ∈ worker_batch vllm env i) as [i Hi].
    { rewrite !elem_of_app in Hr. destruct Hr as [?|[?|?]]; eauto. }
    unfold worker_batch in Hi.
    destruct (gpu_prompts !! i) as [prompts|]; [|by apply elem_of_nil in Hi].
    apply list_elem_of_lookup in Hi as [j Hj].
    destruct (proj2 (batch_of_entries vllm env (Z.of_nat i) model_name prompts) j r Hj)
      as (_ & _ & outs & o & c & _ & _ & _ & Hresp).
    by exists (text c). }
  destruct (strip_facts t) as (_ & Hfirst & Hlast & Hidem). done.
Qed.

Lemma presented_responses_are_stripped_witness :
  let s := state_after padded_engine reverse_order ∅ in
  let r := entry 0 "Current date context: Today is August 16, 2025. Question: What year is it currently?"
             (" echo:Current date context: Today is August 16, 2025. Question: What year is it currently?" +:+ newline) in
  strip (response r) = response r
  ∧ (∀ c, first_char (response r) = Some c → isspace c = false)
  ∧ (∀ c, last_char (response r) = Some c → isspace c = false).
Proof.
  intros s r. apply (presented_responses_are_stripped padded_engine ∅ s r).
  - exists reverse_order. vm_compute. reflexivity.
  - vm_compute. reflexivity.
  - assert (ResultSet s !! 0%nat = Some r) as Hr by (vm_compute; reflexivity).
    by eapply list_elem_of_lookup_2.
Defined.

(** ** [str] and the scoping of the devices *)

Lemma str_inj a b : str a = str b → a = b.
Proof.
  unfold str. intros Heq.
  assert (∀ n, NilZero.int_of_string (NilZero.string_of_int (Z.to_int n))
               = Some (Z.to_int n)) as Hround.
  { intros n. apply NilZero.isi; destruct n as [|p|p]; simpl; try done;
      intros [= Hp]; by apply DecimalPos.Unsigned.to_uint_nonnil in Hp. }
  pose proof (Hround a) as Ha. rewrite Heq, Hround in Ha. injection Ha as Ha.
  by rewrite <- (DecimalZ.of_to a), <- (DecimalZ.of_to b), Ha.
Qed.

(** The environment of a child: the parent's until the child has taken
    its first step, the scoped one from then on. *)
Lemma process_environ vllm env s i p :
  invariant vllm env s → processes s !! i = Some p →
  p_environ p = match p_done p with
                | [] => env
                | _ => <["CUDA_VISIBLE_DEVICES" := str (Z.of_nat i)]> env
                end.
Proof.
  intros Hinv Hi.
  destruct (inv_processes _ _ _ Hinv i p Hi) as [_ [prompts Hp] Hevs _ Henv].
  unfold worker_events, target in Hevs. rewrite Hp in Hevs.
  destruct (run_model_on_gpu_scoping vllm (Z.of_nat i) model_name prompts
              {| w_environ := env; w_events := [] |}) as (rest & Hrest & Hno).
  rewrite Hrest in Hevs. simpl in Hevs. rewrite Henv. unfold replay.
  destruct (p_done p) as [|ev evs]; [done|].
  simpl in Hevs. injection Hevs as -> Hevs. simpl.
  apply foldl_environ_after. rewrite <- Hevs in Hno. by eapply forallb_prefix.
Qed.

(** X6.  No two workers are scoped to the same device.  [str] maps
    different integers to different strings, so in every reachable state
    two different children that have started to run have different
    values of [CUDA_VISIBLE_DEVICES], each its own GPU id. *)
Theorem workers_scoped_to_different_devices vllm env s (i j : nat) p q :
  reachable vllm env s →
  processes s !! i = Some p →
  processes s !! j = Some q →
  i ≠ j →
  p_done p ≠ [] →
  p_done q ≠ [] →
  p_environ p !! "CUDA_VISIBLE_DEVICES" = Some (str (Z.of_nat i))
  ∧ p_environ q !! "CUDA_VISIBLE_DEVICES" = Some (str (Z.of_nat j))
  ∧ p_environ p !! "CUDA_VISIBLE_DEVICES" ≠ p_environ q !! "CUDA_VISIBLE_DEVICES".
Proof.
  intros Hinv%reachable_invariant Hi Hj Hij Hp Hq.
  rewrite (process_environ vllm env s i p Hinv Hi), (process_environ vllm env s j q Hinv Hj).
  destruct (p_done p); [done|]. destruct (p_done q); [done|].
  rewrite !lookup_insert_eq. split; [done|]. split; [done|].
  intros [= Heq%str_inj]. lia.
Qed.

Lemma workers_scoped_to_different_devices_witness :
  let s := state_after echo_engine (spawn_all ++ child_steps 2 3 ++ child_steps 0 1) ∅ in
  ∃ p q, processes s !! 0%nat = Some p ∧ processes s !! 2%nat = Some q
         ∧ p_environ p !! "CUDA_VISIBLE_DEVICES" = Some (str (Z.of_nat 0))
         ∧ p_environ q !! "CUDA_VISIBLE_DEVICES" = Some (str (Z.of_nat 2))
         ∧ p_environ p !! "CUDA_VISIBLE_DEVICES" ≠ p_environ q !! "CUDA_VISIBLE_DEVICES".
Proof.
  intros s.
  assert (reachable echo_engine ∅ s) as Hreach
    by (exists (spawn_all ++ child_steps 2 3 ++ child_steps 0 1); vm_compute; reflexivity).
  destruct (processes s !! 0%nat) as [p|] eqn:Hp; [|by vm_compute in Hp].
  destruct (processes s !! 2%nat) as [q|] eqn:Hq; [|by vm_compute in Hq].
  exists p, q. split; [done|]. split; [done|].
  apply (workers_scoped_to_different_devices echo_engine ∅ s 0 2 p q Hreach Hp Hq).
  - lia.
  - intros Hnil. vm_compute in Hp. injection Hp as <-. done.
  - intros Hnil. vm_compute in Hq. injection Hq as <-. done.
Defined.

(** ** What a worker prints and what it asks of the engine *)

Ltac worker_paths :=
  unfold run_model_on_gpu, batch_of, computation, inference, try_except, W_bind,
    new_LLM, generate, environ_set, print, results_queue_put, emit, lift, W_bind;
  simpl;
  repeat match goal with
    | |- context [LLM_init ?v ?e ?a] => destruct (LLM_init v e a); simpl
    | |- context [LLM_generate ?v ?l ?p ?sp] => destruct (LLM_generate v l p sp); simpl
    | |- context [collect_results ?g ?p ?en ?acc] =>
        destruct (collect_results g p en acc); simpl
    end.

Lemma prints_app evs1 evs2 : prints (evs1 ++ evs2) = prints evs1 ++ prints evs2.
Proof. apply omap_app. Qed.

Lemma run_model_on_gpu_prints vllm gpu name prompts st :
  prints (w_events (run_model_on_gpu vllm gpu name prompts st).2)
  = prints (w_events st)
    ++ [loading_line gpu name;
        outcome_line gpu (computation vllm (w_environ st) gpu name prompts)].
Proof.
  unfold loading_line, outcome_line.
  worker_paths; rewrite <- ?(assoc_L (++)); simpl; rewrite prints_app; reflexivity.
Qed.

(** X7.  A worker prints exactly two lines: that it loads the model,
    and then either that it completed or the error.  It prints
    "Completed processing" only after it has written its results, as its
    last step; on an error it prints the message first and its last step
    is the write of the empty batch. *)
Theorem worker_log_matches_outcome vllm gpu name prompts st :
  let evs := w_events (run_model_on_gpu vllm gpu name prompts st).2 in
  let o := computation vllm (w_environ st) gpu name prompts in
  prints evs = prints (w_events st) ++ [loading_line gpu name; outcome_line gpu o]
  ∧ last evs = Some (match o with
                     | Returned _ => Print (outcome_line gpu o)
                     | Raised _ => QueuePut []
                     end)
  ∧ match o with
    | Returned results =>
        ∃ before, evs = before ++ [QueuePut results; Print (outcome_line gpu o)]
    | Raised e =>
        ∃ before, evs = before ++ [Print (outcome_line gpu o); QueuePut []]
    end.
Proof.
  intros evs o. split; [apply run_model_on_gpu_prints|].
  unfold evs, o, outcome_line.
  worker_paths; rewrite <- ?(assoc_L (++)); simpl; (split; [by rewrite last_app|]).
  - by eexists (_ ++ [_; _; _; _]); rewrite <- (assoc_L (++)).
  - by eexists (_ ++ [_; _; _; _]); rewrite <- (assoc_L (++)).
  - by eexists (_ ++ [_; _; _; _]); rewrite <- (assoc_L (++)).
  - by eexists (_ ++ [_; _; _]); rewrite <- (assoc_L (++)).
Qed.

Lemma run_model_on_gpu_engine_ops vllm gpu name prompts st :
  let args := {| model := name; tensor_parallel_size := 1; trust_remote_code := true;
                 max_model_len := 4096; gpu_memory_utilization := (85 # 100)%Q |} in
  engine_ops (w_events (run_model_on_gpu vllm gpu name prompts st).2)
  = engine_ops (w_events st)
    ++ EngineInit args
       :: match LLM_init vllm (<["CUDA_VISIBLE_DEVICES" := str gpu]> (w_environ st)) args with
          | Returned _ =>
              [EngineGenerate prompts
                 {| temperature := (1 # 10)%Q; top_p := (9 # 10)%Q; max_tokens := 200 |}]
          | Raised _ => []
          end.
Proof.
  intros args. unfold engine_ops, args.
  worker_paths; rewrite <- ?(assoc_L (++)); simpl; rewrite filter_app; reflexivity.
Qed.

(** X8.  A worker constructs the engine exactly once, with the model
    name it was given, one GPU per instance, a context of 4096 tokens and
    0.85 of the GPU memory.  It calls [generate] at most once: exactly
    when the construction returned, with all its prompts at once and the
    sampling parameters 0.1, 0.9 and 200. *)
Theorem worker_engine_operations vllm gpu name prompts st :
  let args := {| model := name; tensor_parallel_size := 1; trust_remote_code := true;
                 max_model_len := 4096; gpu_memory_utilization := (85 # 100)%Q |} in
  engine_ops (w_events (run_model_on_gpu vllm gpu name prompts st).2)
  = engine_ops (w_events st)
    ++ EngineInit args
       :: match LLM_init vllm (<["CUDA_VISIBLE_DEVICES" := str gpu]> (w_environ st)) args with
          | Returned _ =>
              [EngineGenerate prompts
                 {| temperature := (1 # 10)%Q; top_p := (9 # 10)%Q; max_tokens := 200 |}]
          | Raised _ => []
          end.
Proof. apply run_model_on_gpu_engine_ops. Qed.

(** ** The sort and the order of completion *)

(** X9.  [sorted] is the stable sort: its result is a rearrangement of
    its argument, ordered by the key, in which the elements with a given
    key are in the order they had in the argument; and it is the only
    list that is ordered by the key and has these groups. *)
Theorem sorted_is_the_stable_sort {A} (key : A → Z) (l : list A) :
  sorted key l ≡ₚ l
  ∧ StronglySorted (λ x y, key x ≤ key y) (sorted key l)
  ∧ (∀ v, filter (λ x, key x = v) (sorted key l) = filter (λ x, key x = v) l)
  ∧ ∀ l', StronglySorted (λ x y, key x ≤ key y) l' →
          (∀ v, filter (λ x, key x = v) l' = filter (λ x, key x = v) l) →
          l' = sorted key l.
Proof.
  split; [apply sorted_perm|]. split; [apply sorted_sorted|].
  split; [intros v; apply sorted_filter|].
  intros l' Hsorted Hgroups.
  apply (sorted_groups_eq key); [done|apply sorted_sorted|].
  intros v. by rewrite sorted_filter.
Qed.

(** X10.  What a finished run presents does not depend on the schedule:
    two finished runs with the same engine and environment present the
    same entries in the same order, and so print the same report, though
    their [all_results] may hold the batches in different orders. *)
Theorem presentation_is_schedule_independent vllm env s1 s2 :
  reachable vllm env s1 → control s1 = Finished →
  reachable vllm env s2 → control s2 = Finished →
  ResultSet s1 = ResultSet s2
  ∧ report (ResultSet s1) = report (ResultSet s2)
  ∧ all_results s1 ≡ₚ all_results s2.
Proof.
  intros Hr1 Hf1 Hr2 Hf2.
  assert (ResultSet s1 = ResultSet s2) as Heq
    by (by rewrite (ResultSet_finished vllm env s1), (ResultSet_finished vllm env s2)).
  split; [done|]. split; [by rewrite Heq|].
  unfold ResultSet in Heq.
  by rewrite <- (sorted_perm gpu_id (all_results s1)), Heq, sorted_perm.
Qed.

Lemma presentation_is_schedule_independent_witness :
  let s1 := state_after echo_engine reverse_order ∅ in
  let s2 := state_after echo_engine dispatch_order ∅ in
  all_results s1 ≠ all_results s2
  ∧ ResultSet s1 = ResultSet s2
  ∧ report (ResultSet s1) = report (ResultSet s2)
  ∧ all_results s1 ≡ₚ all_results s2.
Proof.
  intros s1 s2. split.
  - intros Heq. apply (f_equal (fmap gpu_id)) in Heq. vm_compute in Heq. discriminate.
  - apply (presentation_is_schedule_independent echo_engine ∅ s1 s2).
    + exists reverse_order. vm_compute. reflexivity.
    + vm_compute. reflexivity.
    + exists dispatch_order. vm_compute. reflexivity.
    + vm_compute. reflexivity.
Defined.

(** X11.  The result set does not tell a worker that failed from a
    worker whose engine returned no output: both write the empty batch.
    With two engines that behave alike for every worker other than [k],
    one raising for worker [k] and the other returning no output, the
    finished runs present the same; only the line that the worker prints
    differs. *)
Theorem failure_looks_like_no_output vllm1 vllm2 env (k : nat) prompts e s1 s2 :
  (∀ i ps, i ≠ k → gpu_prompts !! i = Some ps →
     inference vllm1 env (Z.of_nat i) model_name ps
     = inference vllm2 env (Z.of_nat i) model_name ps) →
  gpu_prompts !! k = Some prompts →
  computation vllm1 env (Z.of_nat k) model_name prompts = Raised e →
  inference vllm2 env (Z.of_nat k) model_name prompts = Returned [] →
  reachable vllm1 env s1 → control s1 = Finished →
  reachable vllm2 env s2 → control s2 = Finished →
  ResultSet s1 = ResultSet s2
  ∧ outcome_line (Z.of_nat k) (computation vllm1 env (Z.of_nat k) model_name prompts)
    = "GPU " +:+ str (Z.of_nat k) +:+ ": Error - " +:+ exc_msg e
  ∧ outcome_line (Z.of_nat k) (computation vllm2 env (Z.of_nat k) model_name prompts)
    = "GPU " +:+ str (Z.of_nat k) +:+ ": Completed processing".
Proof.
  intros Hsame Hp He Hnone Hr1 Hf1 Hr2 Hf2.
  assert (computation vllm2 env (Z.of_nat k) model_name prompts = Returned []) as Hc2
    by (unfold computation; by rewrite Hnone).
  assert (∀ i, worker_batch vllm1 env i = worker_batch vllm2 env i) as Hbatch.
  { intros i. unfold worker_batch.
    destruct (gpu_prompts !! i) as [ps|] eqn:Hps; [|done].
    destruct (decide (i = k)) as [->|Hik].
    - assert (ps = prompts) as -> by congruence.
      unfold batch_of. by rewrite He, Hc2.
    - unfold batch_of, computation. by rewrite (Hsame i ps Hik Hps). }
  rewrite (ResultSet_finished vllm1 env s1 Hr1 Hf1), (ResultSet_finished vllm2 env s2 Hr2 Hf2).
  rewrite !Hbatch, He, Hc2. done.
Qed.

Lemma failure_looks_like_no_output_witness :
  let s1 := state_after (faulty_engine 1) reverse_order_faulty ∅ in
  let s2 := state_after (mute_engine 1) reverse_order ∅ in
  let prompts :=
    [ "Current date context: Today is August 16, 2025. Academic year context: Fall 2024 semester ended in December 2024, Spring 2025 semester ended in May 2025. Question: If I ask about courses from 'last year', which academic year should that refer to?";
      "Current date context: Today is August 16, 2025. Question: If I'm starting Fall 2025 semester soon, what was the previous academic year?" ] in
  ResultSet s1 = ResultSet s2
  ∧ outcome_line (Z.of_nat 1) (computation (faulty_engine 1) ∅ (Z.of_nat 1) model_name prompts)
    = "GPU " +:+ str (Z.of_nat 1) +:+ ": Error - " +:+ "CUDA out of memory"
  ∧ outcome_line (Z.of_nat 1) (computation (mute_engine 1) ∅ (Z.of_nat 1) model_name prompts)
    = "GPU " +:+ str (Z.of_nat 1) +:+ ": Completed processing".
Proof.
  intros s1 s2 prompts.
  apply (failure_looks_like_no_output (faulty_engine 1) (mute_engine 1) ∅ 1 prompts
           {| exc_type := "RuntimeError"; exc_msg := "CUDA out of memory" |} s1 s2).
  - intros i ps Hi Hps.
    destruct i as [|[|[|i]]]; [|done| |done]; injection Hps as <-; vm_compute; reflexivity.
  - vm_compute. reflexivity.
  - vm_compute. reflexivity.
  - vm_compute. reflexivity.
  - exists reverse_order_faulty. vm_compute. reflexivity.
  - vm_compute. reflexivity.
  - exists reverse_order. vm_compute. reflexivity.
  - vm_compute. reflexivity.
Defined.

(** ** The terminal *)

Lemma concat_fmap_insert {A B} (f : A → list B) (l : list A) i x y extra :
  l !! i = Some x → f y = f x ++ extra →
  concat (f <$> <[i := y]> l) ≡ₚ concat (f <$> l) ++ extra.
Proof.
  revert i. induction l as [|z l IH]; intros [|i] Hi Hf; simpl in *; try done.
  - injection Hi as ->. rewrite Hf, <- !(assoc_L (++)).
    f_equiv. apply Permutation_app_comm.
  - rewrite (IH i Hi Hf). by rewrite (assoc_L (++)).
Qed.

Lemma concat_fmap_seq {A B} (f : A → list B) (g : nat → list B) (l : list A) j :
  (∀ i x, l !! i = Some x → f x = g (j + i)%nat) →
  concat (f <$> l) = concat (g <$> seq j (length l)).
Proof.
  revert j. induction l as [|x l IH]; intros j Hl; simpl; [done|].
  rewrite (Hl 0%nat x eq_refl), Nat.add_0_r. f_equal.
  apply IH. intros i y Hi.
  replace (S j + i)%nat with (j + S i)%nat by lia. by apply (Hl (S i)).
Qed.

Lemma stdout_ok_start env : stdout_ok (test_multi_gpu env).
Proof.
  exists []. simpl. split; [done|]. split; [done|]. intros i p Hi. by rewrite lookup_nil in Hi.
Qed.

Lemma stdout_ok_step vllm env a s s' :
  invariant vllm env s → stdout_ok s → step vllm a s = Some s' → stdout_ok s'.
Proof.
  intros Hinv (lines & Hout & Hperm & Hsub) Hstep. destruct a as [|i]; simpl in Hstep.
  - unfold parent_step in Hstep.
    destruct (control s) as [[|gpu rest]|[|j rest]| |] eqn:Hc.
    + injection Hstep as <-. exists lines. simpl. by rewrite app_nil_r in *.
    + destruct (gpu_prompts !! Z.to_nat gpu) as [prompts|]; [|done].
      injection Hstep as <-. exists lines. simpl. split; [done|]. split.
      * rewrite fmap_app, concat_app. simpl. by rewrite !app_nil_r.
      * intros i p Hi. apply lookup_app_Some in Hi as [Hi|[_ Hi]]; [by eapply Hsub|].
        apply list_lookup_singleton_Some in Hi as [_ <-]. simpl. apply sublist_nil_l.
    + injection Hstep as <-. exists lines. simpl. by rewrite app_nil_r in *.
    + destruct (processes s !! j) as [p|]; [|done].
      destruct (terminated p); [|done].
      injection Hstep as <-. exists lines. simpl. by rewrite app_nil_r in *.
    + destruct (results_queue s) as [|b q]; injection Hstep as <-; exists lines; simpl.
      * rewrite app_nil_r in Hout. split; [|done].
        rewrite Hout. reflexivity.
      * done.
    + done.
  - unfold child_step in Hstep.
    destruct (processes s !! i) as [p|] eqn:Hi; [|done].
    destruct (p_pending p) as [|ev rest] eqn:Hp; [done|].
    injection Hstep as <-.
    assert (terminated p = false) as Hrun by (unfold terminated; by rewrite Hp).
    pose proof (running_child_control s i p (inv_control _ _ _ Hinv) Hi Hrun) as Hcc.
    assert (stdout s = "Starting multi-GPU test with 3 parallel vLLM instances..." :: lines)
      as Hout'.
    { rewrite Hout. destruct (control s); try done; by rewrite app_nil_r. }
    pose proof (lookup_lt_Some _ _ _ Hi) as Hlt.
    set (p' := {| p_gpu := p_gpu p; p_environ := environ_after ev (p_environ p);
                  p_done := p_done p ++ [ev]; p_pending := rest; p_exit := p_exit p |}).
    exists (lines ++ prints [ev]). simpl.
    assert (∀ l : list string, match control s with Finished => l | _ => [] end = [])
      as Hnone by (intros l; revert Hcc; by destruct (control s)).
    rewrite Hnone.
    split; [|split].
    + rewrite app_nil_r, Hout'.
      destruct ev; simpl; by rewrite ?app_nil_r.
    + rewrite (concat_fmap_insert (λ p, prints (p_done p)) (processes s) i p p'
                 (prints [ev]) Hi); [by rewrite Hperm|].
      simpl. apply prints_app.
    + intros j q Hj. destruct (decide (j = i)) as [->|Hne].
      * rewrite list_lookup_insert_eq in Hj by done. injection Hj as <-.
        simpl. rewrite prints_app. apply sublist_app; [by eapply Hsub|done].
      * rewrite list_lookup_insert_ne in Hj by done.
        apply sublist_inserts_r. by eapply Hsub.
Qed.

Lemma stdout_ok_run vllm env schedule s s' :
  invariant vllm env s → stdout_ok s → run vllm schedule s = Some s' → stdout_ok s'.
Proof.
  revert s. induction schedule as [|a schedule IH]; simpl; intros s Hinv Hok Hrun.
  - by injection Hrun as <-.
  - destruct (step vllm a s) as [s1|] eqn:Hstep; [|done].
    eapply IH; [| |exact Hrun].
    + by eapply invariant_step.
    + by eapply stdout_ok_step.
Qed.

(** X12.  The terminal of a finished run: first the line of the parent,
    then the six lines of the workers, mixed in some order but each
    worker's two lines in their order, and only then the report: the
    banner and four lines for every presented entry, in the order of the
    result set.  No line of a worker comes after the banner. *)
Theorem terminal_of_a_finished_run vllm env s :
  reachable vllm env s →
  control s = Finished →
  ∃ lines,
    stdout s
    = "Starting multi-GPU test with 3 parallel vLLM instances..."
      :: lines ++ report (ResultSet s)
    ∧ lines ≡ₚ worker_lines vllm env 0 ++ worker_lines vllm env 1 ++ worker_lines vllm env 2
    ∧ length lines = 6%nat
    ∧ (∀ i, (i < 3)%nat → worker_lines vllm env i `sublist_of` lines)
    ∧ length (stdout s) = (10 + 4 * length (ResultSet s))%nat.
Proof.
  intros [schedule Hrun] Hfin.
  pose proof (invariant_run vllm env schedule _ s (invariant_start vllm env) Hrun) as Hinv.
  destruct (stdout_ok_run vllm env schedule _ s (invariant_start vllm env)
              (stdout_ok_start env) Hrun) as (lines & Hout & Hperm & Hsub).
  rewrite Hfin in Hout.
  pose proof (inv_control _ _ _ Hinv) as Hctl. unfold control_ok in Hctl.
  rewrite Hfin in Hctl. destruct Hctl as [Hlen Hterm].
  assert (∀ i p, processes s !! i = Some p → prints (p_done p) = worker_lines vllm env i)
    as Hlines.
  { intros i p Hi. destruct (inv_processes _ _ _ Hinv i p Hi) as [_ [prompts Hp] Hevs _ _].
    rewrite Forall_lookup in Hterm. specialize (Hterm i p Hi).
    unfold terminated in Hterm. destruct (p_pending p); [|done].
    rewrite app_nil_r in Hevs. rewrite Hevs.
    unfold worker_events, worker_lines, target. rewrite Hp.
    by rewrite run_model_on_gpu_prints. }
  assert (lines ≡ₚ worker_lines vllm env 0 ++ worker_lines vllm env 1 ++ worker_lines vllm env 2)
    as Hperm'.
  { rewrite Hperm.
    rewrite (concat_fmap_seq (λ p, prints (p_done p)) (worker_lines vllm env) (processes s) 0)
      by (intros i p Hi; by apply Hlines).
    rewrite Hlen.
    change (concat (worker_lines vllm env <$> seq 0 3))
      with (worker_lines vllm env 0 ++ worker_lines vllm env 1
            ++ worker_lines vllm env 2 ++ []).
    by rewrite app_nil_r. }
  assert (length lines = 6%nat) as Hsix by (rewrite Hperm'; reflexivity).
  exists lines. split; [done|]. split; [done|]. split; [done|]. split.
  - intros i Hi. destruct (lookup_lt_is_Some_2 (processes s) i) as [p Hp]; [lia|].
    rewrite <- (Hlines i p Hp). by eapply Hsub.
  - rewrite Hout. simpl. rewrite !length_app, Hsix. unfold report.
    rewrite length_app. simpl. f_equal.
    assert (∀ rs, length (flat_map display rs) = (4 * length rs)%nat) as ->
      by (intros rs; induction rs as [|r rs IH]; simpl; [done|]; rewrite IH; lia).
    lia.
Qed.

Lemma terminal_of_a_finished_run_witness :
  let s := state_after (faulty_engine 1) reverse_order_faulty ∅ in
  ∃ lines,
    stdout s
    = "Starting multi-GPU test with 3 parallel vLLM instances..."
      :: lines ++ report (ResultSet s)
    ∧ lines ≡ₚ worker_lines (faulty_engine 1) ∅ 0 ++ worker_lines (faulty_engine 1) ∅ 1
               ++ worker_lines (faulty_engine 1) ∅ 2
    ∧ length lines = 6%nat
    ∧ (∀ i, (i < 3)%nat → worker_lines (faulty_engine 1) ∅ i `sublist_of` lines)
    ∧ length (stdout s) = (10 + 4 * length (ResultSet s))%nat.
Proof.
  intros s. apply (terminal_of_a_finished_run (faulty_engine 1) ∅ s).
  - exists reverse_order_faulty. vm_compute. reflexivity.
  - vm_compute. reflexivity.
Defined.

(** ** Dispatch *)

Lemma elem_of_engine_ops ev evs : ev ∈ engine_ops evs ↔ ev ∈ evs ∧ is_engine_op ev = true.
Proof. unfold engine_ops. rewrite list_elem_of_filter. tauto. Qed.

(** X13.  The parent gives every child its own work: the child at
    position [i] of [processes] is bound to GPU [i], and the only engine
    operations among its events are the construction of the engine for
    the model of line 54 and one generation over exactly the prompts
    [gpu_prompts[i]]. *)
Theorem each_worker_gets_its_own_prompts vllm env s (i : nat) p :
  reachable vllm env s →
  processes s !! i = Some p →
  ∃ prompts,
    gpu_prompts !! i = Some prompts
    ∧ p_gpu p = Z.of_nat i
    ∧ ∀ ev, ev ∈ p_done p ++ p_pending p → is_engine_op ev = true →
        ev = EngineInit {| model := "Qwen/Qwen2.5-7B-Instruct"; tensor_parallel_size := 1;
                           trust_remote_code := true; max_model_len := 4096;
                           gpu_memory_utilization := (85 # 100)%Q |}
        ∨ ev = EngineGenerate prompts
                 {| temperature := (1 # 10)%Q; top_p := (9 # 10)%Q; max_tokens := 200 |}.
Proof.
  intros Hinv%reachable_invariant Hi.
  destruct (inv_processes _ _ _ Hinv i p Hi) as [Hgpu [prompts Hp] Hevs _ _].
  exists prompts. split; [done|]. split; [done|].
  intros ev Hev Hop. rewrite Hevs in Hev. unfold worker_events, target in Hev.
  rewrite Hp in Hev.
  assert (ev ∈ engine_ops (w_events (run_model_on_gpu vllm (Z.of_nat i) model_name prompts
            {| w_environ := env; w_events := [] |}).2)) as Hin
    by (by apply elem_of_engine_ops).
  rewrite run_model_on_gpu_engine_ops in Hin. simpl in Hin.
  apply elem_of_cons in Hin as [->|Hin]; [by left|right].
  destruct (LLM_init vllm _ _); [|by apply elem_of_nil in Hin].
  by apply list_elem_of_singleton in Hin.
Qed.

Lemma each_worker_gets_its_own_prompts_witness :
  let s := state_after echo_engine (spawn_all ++ child_steps 2 3) ∅ in
  ∃ p prompts,
    processes s !! 2%nat = Some p
    ∧ gpu_prompts !! 2%nat = Some prompts
    ∧ p_gpu p = Z.of_nat 2
    ∧ ∀ ev, ev ∈ p_done p ++ p_pending p → is_engine_op ev = true →
        ev = EngineInit {| model := "Qwen/Qwen2.5-7B-Instruct"; tensor_parallel_size := 1;
                           trust_remote_code := true; max_model_len := 4096;
                           gpu_memory_utilization := (85 # 100)%Q |}
        ∨ ev = EngineGenerate prompts
                 {| temperature := (1 # 10)%Q; top_p := (9 # 10)%Q; max_tokens := 200 |}.
Proof.
  intros s.
  assert (reachable echo_engine ∅ s) as Hreach
    by (exists (spawn_all ++ child_steps 2 3); vm_compute; reflexivity).
  destruct (processes s !! 2%nat) as [p|] eqn:Hp; [|by vm_compute in Hp].
  destruct (each_worker_gets_its_own_prompts echo_engine ∅ s 2 p Hreach Hp)
    as (prompts & Hprompts & Hrest).
  exists p, prompts. split; [reflexivity|]. split; [exact Hprompts|]. exact Hrest.
Defined.

(** ** Every order of completion is possible *)

Section Completion.
Context (vllm : Engine) (env : gmap string string).








End Completion.



(** ** The loop that prints the answers *)

Lemma print_responses_app prompts e1 e2 st :
  print_responses prompts (e1 ++ e2) st
  = match print_responses prompts e1 st with
    | (Returned _, st') => print_responses prompts e2 st'
    | (Raised e, st') => (Raised e, st')
    end.
Proof.
  revert st. induction e1 as [|[i o] e1 IH]; intros st; simpl; [done|].
  unfold W_bind, lift, index, print, emit. simpl.
  destruct (prompts !! i); [|done]. simpl.
  destruct (outputs o !! 0%nat); [|done]. simpl. apply IH.
Qed.

Lemma print_responses_all prompts outs texts k st :
  first_texts outs texts →
  (k + length outs ≤ length prompts)%nat →
  print_responses prompts (zip (seq k (length outs)) outs) st
  = (Returned tt,
     {| w_environ := w_environ st;
        w_events := w_events st ++ (Print <$> response_lines (drop k prompts) texts) |}).
Proof.
  intros Hft. revert k st.
  induction Hft as [|o t outs texts Ht Hft IH]; intros k st Hlen; simpl in *.
  - unfold W_ret, response_lines. destruct (drop k prompts); simpl;
      rewrite app_nil_r; by destruct st.
  - destruct (lookup_lt_is_Some_2 prompts k) as [p Hp]; [lia|].
    unfold W_bind, lift, index, print, emit. simpl. rewrite Hp. simpl.
    destruct (outputs o !! 0%nat) as [c|]; [|done]. injection Ht as <-. simpl.
    rewrite IH by lia. simpl. rewrite (drop_S _ _ _ Hp). unfold response_lines. simpl.
    by rewrite <- !(assoc_L (++)).
Qed.

Lemma enumerate_app {A} (l1 l2 : list A) :
  enumerate (l1 ++ l2) = enumerate l1 ++ zip (seq (length l1) (length l2)) l2.
Proof.
  unfold enumerate. rewrite length_app, seq_app. simpl.
  apply zip_with_app. by rewrite length_seq.
Qed.

(** X15.  When the engine returned no more outputs than there are
    prompts, each with a completion, the loop prints for every output,
    in order, the prompt at its index and the stripped text, and
    returns; the environment is as before. *)
Theorem print_responses_prints_every_pair prompts outs texts st :
  first_texts outs texts →
  (length outs ≤ length prompts)%nat →
  print_responses prompts (enumerate outs) st
  = (Returned tt,
     {| w_environ := w_environ st;
        w_events := w_events st ++ (Print <$> response_lines prompts texts) |}).
Proof.
  intros Hft Hlen. unfold enumerate.
  by rewrite (print_responses_all prompts outs texts 0 st Hft).
Qed.

Lemma print_responses_prints_every_pair_witness :
  print_responses ["a"; "b"; "c"]
    (enumerate [ {| outputs := [ {| text := " one " |} ] |};
                 {| outputs := [ {| text := "two" |}; {| text := "other" |} ] |} ])
    {| w_environ := ∅; w_events := [] |}
  = (Returned tt,
     {| w_environ := ∅;
        w_events := [] ++ (Print <$> response_lines ["a"; "b"; "c"] [" one "; "two"]) |}).
Proof.
  apply (print_responses_prints_every_pair ["a"; "b"; "c"] _ [" one "; "two"]
           {| w_environ := ∅; w_events := [] |}).
  - repeat constructor.
  - simpl. lia.
Defined.

(** X16.  The loop stops at the first output it cannot print.  The
    pairs before it stay printed.  When that output has no completion,
    its prompt line is printed too, without a response; when there is no
    prompt left for it, nothing more is printed.  In both cases the loop
    raises [IndexError]. *)
Theorem print_responses_stops_at_first_bad_output prompts good bad rest texts st :
  first_texts good texts →
  (length good ≤ length prompts)%nat →
  ((length good < length prompts)%nat → outputs bad = []) →
  print_responses prompts (enumerate (good ++ bad :: rest)) st
  = (Raised IndexError,
     {| w_environ := w_environ st;
        w_events :=
          w_events st
          ++ (Print <$> response_lines prompts texts
                        ++ match prompts !! length good with
                           | Some p => [newline +:+ "Prompt: " +:+ p]
                           | None => []
                           end) |}).
Proof.
  intros Hft Hlen Hbad.
  rewrite enumerate_app, print_responses_app. unfold enumerate.
  rewrite (print_responses_all prompts good texts 0 st Hft) by done.
  simpl. unfold W_bind, lift, index, print, emit. simpl.
  destruct (prompts !! length good) as [p|] eqn:Hp; simpl.
  - apply lookup_lt_Some in Hp. rewrite (Hbad Hp). simpl.
    by rewrite fmap_app, <- (assoc_L (++)).
  - by rewrite app_nil_r.
Qed.

Lemma print_responses_stops_at_first_bad_output_witness :
  print_responses ["a"; "b"; "c"]
    (enumerate ([ {| outputs := [ {| text := " one " |} ] |} ]
                ++ {| outputs := [] |} :: [ {| outputs := [ {| text := "three" |} ] |} ]))
    {| w_environ := ∅; w_events := [] |}
  = (Raised IndexError,
     {| w_environ := ∅;
        w_events :=
          [] ++ (Print <$> response_lines ["a"; "b"; "c"] [" one "]
                           ++ match ["a"; "b"; "c"] !! length [ {| outputs := [ {| text := " one " |} ] |} ] with
                              | Some p => [newline +:+ "Prompt: " +:+ p]
                              | None => []
                              end) |}).
Proof.
  apply (print_responses_stops_at_first_bad_output ["a"; "b"; "c"] _ _ _ [" one "]
           {| w_environ := ∅; w_events := [] |}).
  - repeat constructor.
  - simpl. lia.
  - reflexivity.
Defined.

(** ** The scripts never raise *)

Lemma print_responses_from prompts outs k st :
  (k ≤ length prompts)%nat →
  ∃ st',
    print_responses prompts (zip (seq k (length outs)) outs) st
    = (if decide ((k + length outs ≤ length prompts)%nat
                  ∧ Forall (λ x, outputs x ≠ []) outs)
       then Returned tt else Raised IndexError, st')
    ∧ w_environ st' = w_environ st
    ∧ ∃ lines, w_events st' = w_events st ++ (Print <$> lines).
Proof.
  revert k st. induction outs as [|o outs IH]; intros k st Hk; simpl.
  - exists st. rewrite decide_True by (split; [lia|constructor]).
    split; [done|]. split; [done|]. exists []. by rewrite app_nil_r.
  - unfold W_bind, lift, index, print, emit. simpl.
    destruct (prompts !! k) as [p|] eqn:Hp; simpl.
    + apply lookup_lt_Some in Hp.
      destruct (outputs o) as [|c cs] eqn:Ho; simpl.
      * eexists. rewrite decide_False by (intros [_ Hall]; by inversion Hall).
        split; [done|]. split; [done|]. by exists [newline +:+ "Prompt: " +:+ p].
      * destruct (IH (S k)
                    {| w_environ := w_environ st;
                       w_events := (w_events st ++ [Print (newline +:+ "Prompt: " +:+ p)])
                                   ++ [Print ("Response: " +:+ strip (text c))] |})
          as (st' & Hpr & Henv & lines & Hev); [lia|].
        exists st'. rewrite Hpr. split; [|split; [done|]].
        -- f_equal. destruct (decide _) as [[Hl Hall]|Hno].
           ++ rewrite decide_True; [done|]. split; [lia|].
              constructor; [by rewrite Ho|done].
           ++ rewrite decide_False; [done|]. intros [Hl Hall]. apply Hno.
              split; [lia|]. by inversion Hall.
        -- exists ([newline +:+ "Prompt: " +:+ p; "Response: " +:+ strip (text c)] ++ lines).
           rewrite Hev. simpl. by rewrite <- !(assoc_L (++)).
    + apply lookup_ge_None in Hp. exists st.
      rewrite decide_False by (intros [Hl _]; lia).
      split; [done|]. split; [done|]. exists []. by rewrite app_nil_r.
Qed.

Lemma print_responses_outcome prompts outs st :
  ∃ st' (o : outcome unit) lines,
    print_responses prompts (enumerate outs) st = (o, st')
    ∧ (o = Returned tt ↔ answers_all prompts (Returned outs))
    ∧ (o = Returned tt ∨ o = Raised IndexError)
    ∧ w_environ st' = w_environ st
    ∧ w_events st' = w_events st ++ (Print <$> lines).
Proof.
  destruct (print_responses_from prompts outs 0 st) as (st' & Hpr & Henv & lines & Hev);
    [lia|].
  exists st'. eexists. exists lines. split; [exact Hpr|]. split; [|split; [|done]].
  - unfold answers_all. destruct (decide _) as [[Hl Hall]|Hno].
    + split; [|done]. intros _. exists outs. split; [done|]. split; [lia|done].
    + split; [done|]. intros (outs' & [= <-] & Hl & Hall). destruct Hno.
      split; [simpl; lia|done].
  - destruct (decide _); [by left|by right].
Qed.

Lemma prints_Print lines : prints (Print <$> lines) = lines.
Proof.
  induction lines as [|l lines IH]; [done|].
  rewrite fmap_cons. change (prints (Print l :: (Print <$> lines))) with (l :: prints (Print <$> lines)).
  by rewrite IH.
Qed.

(** Normalises an equation between the lines of two states. *)
Ltac lines_eq :=
  repeat match goal with
    | H : w_events _ = _ |- _ => rewrite H
    end;
  rewrite ?prints_app, ?prints_Print; simpl;
  rewrite <- ?(assoc_L (++)); simpl; rewrite ?app_nil_r; reflexivity.

(** The paths through a script function: the construction raises, the
    generation raises, the loop raises, or all return. *)
Ltac script_paths vllm st kwargs prompts :=
  unfold script_inference, try_except, W_bind, script_LLM, script_generate,
    print, emit, lift, W_ret; simpl;
  fold kwargs prompts sampling_200;
  destruct (SLLM_init vllm (w_environ st) kwargs) as [?llm|?e] eqn:?Hinit; simpl;
  [ match goal with
    | |- context [SLLM_generate vllm ?l prompts sampling_200] =>
        destruct (SLLM_generate vllm l prompts sampling_200) as [?outs|?e] eqn:?Hgen; simpl
    end;
    [ match goal with
      | |- context [print_responses ?p (enumerate ?x) ?s] =>
          let Hpr := fresh "Hpr" in
          destruct (print_responses_outcome p x s)
            as (?st' & ?r & ?lines & Hpr & ?Hiff & [-> | ->] & ?Henv & ?Hev);
          fold prompts in Hpr; rewrite Hpr; simpl in *
      end
    | ]
  | ].

Lemma test_70b_model_probe vllm st :
  let o := script_inference vllm (w_environ st) kwargs_70b prompts_70b sampling_200 in
  ∃ b mid tail,
    (test_70b_model vllm st).1 = Returned b
    ∧ (b = true ↔ answers_all prompts_70b o)
    ∧ w_environ (test_70b_model vllm st).2 = w_environ st
    ∧ prints (w_events (test_70b_model vllm st).2)
      = prints (w_events st)
        ++ ["Loading Qwen/Qwen2.5-72B-Instruct with vLLM across all 3 GPUs...";
            "This may take a while on first run as it downloads the model..."]
        ++ mid ++ tail
    ∧ (b = true → tail = [])
    ∧ (b = false →
       ∃ e, tail = ["Error: " +:+ exc_msg e;
                    newline +:+ "Let's try a smaller model that will definitely work..."]).
Proof.
  intros o. unfold o, test_70b_model. script_paths vllm st kwargs_70b prompts_70b.
  - exists true, ((newline +:+ "Testing temporal reasoning with enhanced context:") :: lines), [].
    split; [done|]. split; [by rewrite <- Hiff|]. split; [done|].
    split; [lines_eq|]. split; [done|done].
  - exists false, ((newline +:+ "Testing temporal reasoning with enhanced context:") :: lines),
      ["Error: " +:+ exc_msg IndexError;
       newline +:+ "Let's try a smaller model that will definitely work..."].
    split; [done|]. split; [|split; [done|split; [lines_eq|split; [done|]]]].
    + split; [done|]. intros Hall%Hiff. done.
    + intros _. by exists IndexError.
  - exists false, [newline +:+ "Testing temporal reasoning with enhanced context:"],
      ["Error: " +:+ exc_msg e;
       newline +:+ "Let's try a smaller model that will definitely work..."].
    split; [done|]. split; [|split; [done|split; [lines_eq|split; [done|]]]].
    + split; [done|]. by intros (? & ? & _).
    + intros _. by exists e.
  - exists false, [],
      ["Error: " +:+ exc_msg e;
       newline +:+ "Let's try a smaller model that will definitely work..."].
    split; [done|]. split; [|split; [done|split; [lines_eq|split; [done|]]]].
    + split; [done|]. by intros (? & ? & _).
    + intros _. by exists e.
Qed.

Lemma test_smaller_model_probe vllm st :
  let o := script_inference vllm (w_environ st) kwargs_smaller prompts_smaller sampling_200 in
  ∃ b mid tail,
    (test_smaller_model vllm st).1 = Returned b
    ∧ (b = true ↔ answers_all prompts_smaller o)
    ∧ w_environ (test_smaller_model vllm st).2 = w_environ st
    ∧ prints (w_events (test_smaller_model vllm st).2)
      = prints (w_events st)
        ++ ["Loading fallback model: Qwen/Qwen2.5-7B-Instruct"] ++ mid ++ tail
    ∧ (b = true → tail = [])
    ∧ (b = false → ∃ e, tail = ["Error with smaller model: " +:+ exc_msg e]).
Proof.
  intros o. unfold o, test_smaller_model.
  script_paths vllm st kwargs_smaller prompts_smaller.
  - exists true, ((newline +:+ "Testing temporal reasoning with 8B model:") :: lines), [].
    split; [done|]. split; [by rewrite <- Hiff|]. split; [done|].
    split; [lines_eq|]. split; [done|done].
  - exists false, ((newline +:+ "Testing temporal reasoning with 8B model:") :: lines),
      ["Error with smaller model: " +:+ exc_msg IndexError].
    split; [done|]. split; [|split; [done|split; [lines_eq|split; [done|]]]].
    + split; [done|]. intros Hall%Hiff. done.
    + intros _. by exists IndexError.
  - exists false, [newline +:+ "Testing temporal reasoning with 8B model:"],
      ["Error with smaller model: " +:+ exc_msg e].
    split; [done|]. split; [|split; [done|split; [lines_eq|split; [done|]]]].
    + split; [done|]. by intros (? & ? & _).
    + intros _. by exists e.
  - exists false, [], ["Error with smaller model: " +:+ exc_msg e].
    split; [done|]. split; [|split; [done|split; [lines_eq|split; [done|]]]].
    + split; [done|]. by intros (? & ? & _).
    + intros _. by exists e.
Qed.

Lemma test_deepseek_probe vllm st :
  let o := script_inference vllm (w_environ st) kwargs_deepseek prompts_deepseek sampling_200 in
  ∃ b mid tail,
    (test_deepseek vllm st).1 = Returned b
    ∧ (b = true ↔ answers_all prompts_deepseek o)
    ∧ w_environ (test_deepseek vllm st).2 = w_environ st
    ∧ prints (w_events (test_deepseek vllm st).2)
      = prints (w_events st)
        ++ ["Loading microsoft/Phi-3.5-mini-instruct with vLLM...";
            "This may take a while on first run as it downloads the model..."]
        ++ mid ++ tail
    ∧ (b = true → tail = [])
    ∧ (b = false → ∃ e, tail = ["Error: " +:+ exc_msg e]).
Proof.
  intros o. unfold o, test_deepseek.
  script_paths vllm st kwargs_deepseek prompts_deepseek.
  - exists true, ((newline +:+ "Testing temporal reasoning:") :: lines), [].
    split; [done|]. split; [by rewrite <- Hiff|]. split; [done|].
    split; [lines_eq|]. split; [done|done].
  - exists false, ((newline +:+ "Testing temporal reasoning:") :: lines),
      ["Error: " +:+ exc_msg IndexError].
    split; [done|]. split; [|split; [done|split; [lines_eq|split; [done|]]]].
    + split; [done|]. intros Hall%Hiff. done.
    + intros _. by exists IndexError.
  - exists false, [newline +:+ "Testing temporal reasoning:"],
      ["Error: " +:+ exc_msg e].
    split; [done|]. split; [|split; [done|split; [lines_eq|split; [done|]]]].
    + split; [done|]. by intros (? & ? & _).
    + intros _. by exists e.
  - exists false, [], ["Error: " +:+ exc_msg e].
    split; [done|]. split; [|split; [done|split; [lines_eq|split; [done|]]]].
    + split; [done|]. by intros (? & ? & _).
    + intros _. by exists e.
Qed.

(** X17.  [test_70b_model] never raises.  It returns [True] exactly
    when the engine was constructed, the generation returned, and the
    loop could print every output (no more outputs than the three
    prompts, each with a completion); otherwise it returns [False] and
    the last two lines it prints are the error and the announcement of
    the smaller model.  Either way it prints its two loading lines first
    and leaves the environment as it was. *)
Theorem test_70b_model_returns_whether_it_succeeded vllm st :
  let o := script_inference vllm (w_environ st) kwargs_70b prompts_70b sampling_200 in
  ∃ b mid tail,
    (test_70b_model vllm st).1 = Returned b
    ∧ (b = true ↔ answers_all prompts_70b o)
    ∧ w_environ (test_70b_model vllm st).2 = w_environ st
    ∧ prints (w_events (test_70b_model vllm st).2)
      = prints (w_events st)
        ++ ["Loading Qwen/Qwen2.5-72B-Instruct with vLLM across all 3 GPUs...";
            "This may take a while on first run as it downloads the model..."]
        ++ mid ++ tail
    ∧ (b = true → tail = [])
    ∧ (b = false →
       ∃ e, tail = ["Error: " +:+ exc_msg e;
                    newline +:+ "Let's try a smaller model that will definitely work..."]).
Proof. apply test_70b_model_probe. Qed.

(** X18.  [test_deepseek] never raises.  It returns [True] exactly when
    the engine was constructed, the generation returned, and the loop
    could print every output; otherwise it returns [False] and the last
    line it prints is the error. *)
Theorem test_deepseek_returns_whether_it_succeeded vllm st :
  let o := script_inference vllm (w_environ st) kwargs_deepseek prompts_deepseek sampling_200 in
  ∃ b mid tail,
    (test_deepseek vllm st).1 = Returned b
    ∧ (b = true ↔ answers_all prompts_deepseek o)
    ∧ w_environ (test_deepseek vllm st).2 = w_environ st
    ∧ prints (w_events (test_deepseek vllm st).2)
      = prints (w_events st)
        ++ ["Loading microsoft/Phi-3.5-mini-instruct with vLLM...";
            "This may take a while on first run as it downloads the model..."]
        ++ mid ++ tail
    ∧ (b = true → tail = [])
    ∧ (b = false → ∃ e, tail = ["Error: " +:+ exc_msg e]).
Proof. apply test_deepseek_probe. Qed.

(** X19.  The script [test-vllm-3gpu.py] never raises, and it falls
    back to the smaller model exactly when the run of the large model
    failed.  When the large model answers every prompt, the script ends
    with [test_70b_model]; otherwise it prints the separator and
    "Trying smaller model as fallback...", runs [test_smaller_model], and
    ends normally even when that fails too. *)
Theorem main_3gpu_falls_back_on_failure vllm st :
  let st1 := {| w_environ := w_environ st;
                w_events := w_events st
                            ++ [Print "Testing large model with temporal reasoning..."] |} in
  let large := script_inference vllm (w_environ st) kwargs_70b prompts_70b sampling_200 in
  (main_3gpu vllm st).1 = Returned tt
  ∧ w_environ (main_3gpu vllm st).2 = w_environ st
  ∧ (answers_all prompts_70b large →
     (main_3gpu vllm st).2 = (test_70b_model vllm st1).2)
  ∧ (¬ answers_all prompts_70b large →
     (main_3gpu vllm st).2
     = (test_smaller_model vllm
          {| w_environ := w_environ st;
             w_events := w_events (test_70b_model vllm st1).2
                         ++ [Print (newline +:+ times "=" 50);
                             Print "Trying smaller model as fallback..."] |}).2).
Proof.
  intros st1 large.
  destruct (test_70b_model_probe vllm st1) as (b & mid & tail & Hb & Hiff & Henv & _).
  simpl in Hiff, Henv. fold large in Hiff.
  unfold main_3gpu, W_bind, print, emit, W_ret. simpl. fold st1.
  destruct (test_70b_model vllm st1) as [o2 st2] eqn:H70. simpl in Hb, Henv. subst o2.
  destruct b; simpl.
  - split; [done|]. split; [done|]. split; [done|].
    intros Hno. destruct Hno. by apply Hiff.
  - match goal with
    | |- context [test_smaller_model vllm ?s] =>
        destruct (test_smaller_model_probe vllm s) as (b' & _ & _ & Hb' & _ & Henv' & _);
        destruct (test_smaller_model vllm s) as [o3 st3] eqn:Hsm
    end.
    simpl in Hb', Henv'. subst o3. simpl.
    split; [done|]. split; [congruence|]. split.
    + intros Hall. apply Hiff in Hall. done.
    + intros _. rewrite <- (assoc_L (++)) in Hsm. simpl in Hsm.
      rewrite <- Henv. by rewrite Hsm.
Qed.
